(** * Stock-Price-Prediction front end: session state and chart assembly

    A shallow embedding of the React front end:

    - [App] (the second document of
      [frontend/src/components/PredictionCard.js]): the component state, the
      socket listeners and the asynchronous [handleStockSelect];
    - [api] ([services/api.js]): [predictStock], which turns a rejected
      request into a soft result;
    - [StockChart.prepareChartData]
      ([frontend/src/components/StockChart.js]): the chart data assembly,
      over a store of mutable JavaScript arrays.

    JavaScript values the code never inspects (historical payload, stock
    info, forecast payload, date labels and prices) are type parameters. *)

From stdpp Require Import gmap strings list fin_maps.

Local Open Scope Z_scope.
Local Open Scope nat_scope.

(** ** JavaScript arrays *)

Module JsArray.

(** [Array.prototype.slice(start)] with one argument: a negative [start]
    counts from the end and is clamped at the first element, a [start]
    beyond the end is clamped at the length. *)
Definition slice {A : Type} (start : Z) (a : list A) : list A :=
  let len := Z.of_nat (length a) in
  let k := if (start <? 0)%Z then Z.max (len + start) 0 else Z.min start len in
  drop (Z.to_nat k) a.

(** [String.prototype.toUpperCase] on strings of ASCII characters: the
    letters [a] to [z] become [A] to [Z], every other ASCII character is
    kept.  On other strings the script's function also maps letters
    outside ASCII; statements that name an upper-cased string are made
    for ASCII strings ([isAscii]) only. *)
Definition upper_ascii (c : Ascii.ascii) : Ascii.ascii :=
  let n := Ascii.nat_of_ascii c in
  if (97 <=? n) && (n <=? 122) then Ascii.ascii_of_nat (n - 32) else c.

Fixpoint toUpperCase (s : string) : string :=
  match s with
  | EmptyString => EmptyString
  | String c r => String (upper_ascii c) (toUpperCase r)
  end.

(** Every character is an ASCII character (code below 128). *)
Fixpoint isAscii (s : string) : bool :=
  match s with
  | EmptyString => true
  | String c r => (Ascii.nat_of_ascii c <? 128) && isAscii r
  end.

End JsArray.

(** ** Messages of the live feed *)

Module Feed.

(** The payload of a [stock_update] socket message.  [predictions] is the
    optional [data.predictions] object, keyed by model name. *)
Record Tick (E Pred : Type) := mkTick {
  symbol : string;
  timestamp : E;
  price : E;
  predictions : option (gmap string Pred);
}.
Arguments mkTick {E Pred} _ _ _ _.
Arguments symbol {E Pred} _.
Arguments timestamp {E Pred} _.
Arguments price {E Pred} _.
Arguments predictions {E Pred} _.

End Feed.

(** ** services/api.js *)

Module api.

(** The outcome of one axios request: a reply body, or a thrown error. *)
Inductive Settled (A : Type) :=
| Resolved (body : A)
| Rejected (message : string).
Arguments Resolved {A} _.
Arguments Rejected {A} _.

(** The reply of [POST /predict]: [{success, data: {predictions}, error}]. *)
Record PredictData (Pred : Type) := { data_predictions : option Pred }.
Arguments data_predictions {Pred} _.

Record PredictResult (Pred : Type) := {
  success : bool;
  data : option (PredictData Pred);
  error : option string;
}.
Arguments success {Pred} _.
Arguments data {Pred} _.
Arguments error {Pred} _.

(** [predictStock]: [response.data], the reply body, on success ([None]
    when the reply has no body, [null]); a rejected request is caught and
    returned as [{success: false, error: error.message}]. *)
Definition predictStock {Pred : Type}
    (response : Settled (option (PredictResult Pred)))
  : option (PredictResult Pred) :=
  match response with
  | Resolved body => body
  | Rejected message =>
      Some {| success := false; data := None; error := Some message |}
  end.

End api.

(** ** App *)

Module App.

Import api.
Import Feed (Tick).

Record Stock := { stock_symbol : string; stock_name : string }.

Inductive Request :=
| GetStockHistory (sym period interval : string)
| GetStockInfo (sym : string)
| TrackStock (sym : string)
| PostPredict (sym model : string) (days : nat).

#[global] Instance Request_eq_dec : EqDecision Request.
Proof. solve_decision. Defined.

(** Where an invocation of the asynchronous [handleStockSelect] is
    suspended. *)
Inductive Stage := AwaitHistory | AwaitInfo | AwaitPredictions.

Section App.

Context {Hist Info Pred E : Type}.

(** The [useState] cells of [App].  [socket] records whether the socket
    object has been created ([null] before). *)
Record State := mkState {
  socket : bool;
  selectedStock : option Stock;
  stockData : option Hist;
  stockInfo : option Info;
  predictionsMap : gmap string Pred;
  loading : bool;
  errorMsg : option string;
  realTimeData : list (Tick E Pred);
}.

Definition setSocket (v : bool) (s : State) : State :=
  mkState v (selectedStock s) (stockData s) (stockInfo s) (predictionsMap s)
          (loading s) (errorMsg s) (realTimeData s).
Definition setSelectedStock (v : option Stock) (s : State) : State :=
  mkState (socket s) v (stockData s) (stockInfo s) (predictionsMap s)
          (loading s) (errorMsg s) (realTimeData s).
Definition setStockData (v : option Hist) (s : State) : State :=
  mkState (socket s) (selectedStock s) v (stockInfo s) (predictionsMap s)
          (loading s) (errorMsg s) (realTimeData s).
Definition setStockInfo (v : option Info) (s : State) : State :=
  mkState (socket s) (selectedStock s) (stockData s) v (predictionsMap s)
          (loading s) (errorMsg s) (realTimeData s).
Definition setPredictions (f : gmap string Pred → gmap string Pred) (s : State)
  : State :=
  mkState (socket s) (selectedStock s) (stockData s) (stockInfo s)
          (f (predictionsMap s)) (loading s) (errorMsg s) (realTimeData s).
Definition setLoading (v : bool) (s : State) : State :=
  mkState (socket s) (selectedStock s) (stockData s) (stockInfo s)
          (predictionsMap s) v (errorMsg s) (realTimeData s).
Definition setError (v : option string) (s : State) : State :=
  mkState (socket s) (selectedStock s) (stockData s) (stockInfo s)
          (predictionsMap s) (loading s) v (realTimeData s).
Definition setRealTimeData
    (f : list (Tick E Pred) → list (Tick E Pred)) (s : State) : State :=
  mkState (socket s) (selectedStock s) (stockData s) (stockInfo s)
          (predictionsMap s) (loading s) (errorMsg s) (f (realTimeData s)).

(** The state of the first render. *)
Definition initialState : State :=
  mkState false None None None ∅ false None [].

(** *** The [stock_update] listener *)

(** The updater passed to [setRealTimeData]: append, and keep only the last
    100 data points. *)
Definition appendTick (data : Tick E Pred) (prevData : list (Tick E Pred))
  : list (Tick E Pred) :=
  let newData := prevData ++ [data] in
  if 100 <? length newData
  then JsArray.slice (Z.of_nat (length newData) - 100) newData
  else newData.

(** The updater passed to [setPredictions]:
    [{...prevPredictions, ...data.predictions}]; the later spread wins. *)
Definition mergePredictions (incoming prevPredictions : gmap string Pred)
  : gmap string Pred :=
  incoming ∪ prevPredictions.

(** The listener is registered by an effect that depends on
    [[socket, selectedStock]]: it is absent while there is no socket and it
    always tests the message against the selection of the current render. *)
Definition stock_update (data : Tick E Pred) (s : State) : State :=
  if socket s then
    match selectedStock s with
    | Some sel =>
        if decide (Feed.symbol data = stock_symbol sel) then
          let s1 := setRealTimeData (appendTick data) s in
          match Feed.predictions data with
          | Some p => setPredictions (mergePredictions p) s1
          | None => s1
          end
        else s
    | None => s
    end
  else s.

Definition connectErrorMessage : string :=
  "Failed to connect to the server. Please try again later.".

Definition connect_error (s : State) : State :=
  if socket s then setError (Some connectErrorMessage) s else s.

(** *** handleStockSelect *)

Definition models : list string := ["arima"; "prophet"; "ml"].

(** The body of [predictionResults.forEach((result, index) => ...)], for
    a result that is an object. *)
Definition organizeStep (models : list string)
    (acc : gmap string Pred) (ir : nat * PredictResult Pred)
  : gmap string Pred :=
  let '(index, result) := ir in
  if success result then
    match data result with
    | Some d =>
        match data_predictions d with
        | Some p => <[default "undefined" (models !! index) := p]> acc
        | None => acc
        end
    | None => acc
    end
  else acc.

(** [predictionsByModel] after the [forEach], when every result is an
    object. *)
Definition organize (models : list string)
    (predictionResults : list (PredictResult Pred)) : gmap string Pred :=
  foldl (organizeStep models) ∅
        (zip (seq 0 (length predictionResults)) predictionResults).

(** One iteration on a result that may be [null]: reading [result.success]
    of [null] throws, which ends the [forEach] ([None]). *)
Definition organizeNext (models : list string)
    (acc : option (gmap string Pred)) (ir : nat * option (PredictResult Pred))
  : option (gmap string Pred) :=
  match acc, ir.2 with
  | Some byModel, Some result => Some (organizeStep models byModel (ir.1, result))
  | _, _ => None
  end.

(** The [forEach] over the results of [Promise.all]: [predictionsByModel],
    or [None] when it throws. *)
Definition organizeResults (models : list string)
    (predictionResults : list (option (PredictResult Pred)))
  : option (gmap string Pred) :=
  foldl (organizeNext models) (Some ∅)
        (zip (seq 0 (length predictionResults)) predictionResults).

Definition noPredictionsMessage : string :=
  "Failed to generate predictions. Please try a different stock or try again later.".
Definition fetchFailedMessage : string :=
  "Failed to fetch stock data. Please try again.".

(** One invocation of [handleStockSelect]: its argument, the [socket] its
    closure captured, and where it is suspended ([None] once it has
    returned). *)
Record Call := mkCall {
  call_stock : Stock;
  call_socket : bool;
  call_stage : option Stage;
}.

(** The component together with its pending invocations and the requests
    sent so far, each tagged with the invocation that sent it. *)
Record World := mkWorld {
  app : State;
  calls : list Call;
  outbox : list (nat * Request);
}.

Definition initialWorld : World := mkWorld initialState [] [].

(** What can happen to the component.  A settled history or info request
    carries the [data] field of the reply ([None] when the reply has none);
    the three forecast requests of an invocation settle together, as
    [Promise.all] waits for all of them. *)
Inductive Event :=
| SocketCreated
| StockUpdate (data : Tick E Pred)
| ConnectError
| Select (stock : Stock)
| HistorySettled (id : nat) (response : Settled (option Hist))
| InfoSettled (id : nat) (response : Settled (option Info))
| PredictionsSettled (id : nat)
    (responses : string → Settled (option (PredictResult Pred))).

(** The synchronous prefix of [handleStockSelect], up to the first
    [await]. *)
Definition selectStart (stock : Stock) (s : State) : State :=
  setRealTimeData (λ _, [])
    (setPredictions (λ _, ∅)
      (setStockInfo None
        (setStockData None
          (setSelectedStock (Some stock)
            (setError None
              (setLoading true s)))))).

(** The [catch] block followed by [finally]. *)
Definition catchFinally (s : State) : State :=
  setLoading false (setError (Some fetchFailedMessage) s).

(** The code after [await Promise.all(predictionPromises)].  When the
    [forEach] throws, control passes to the [catch] block before
    [setPredictions] is reached. *)
Definition afterPredictions
    (predictionResults : list (option (PredictResult Pred)))
    (s : State) : State :=
  match organizeResults models predictionResults with
  | Some predictionsByModel =>
      let s1 := setPredictions (λ _, predictionsByModel) s in
      let s2 := if size predictionsByModel =? 0
                then setError (Some noPredictionsMessage) s1 else s1 in
      setLoading false s2
  | None => catchFinally s
  end.

Definition setStage (id : nat) (c : Call) (st : option Stage)
    (cs : list Call) : list Call :=
  <[id := mkCall (call_stock c) (call_socket c) st]> cs.

Definition send (id : nat) (rs : list Request) : list (nat * Request) :=
  (λ r, (id, r)) <$> rs.

Definition step (w : World) (e : Event) : World :=
  match e with
  | SocketCreated => mkWorld (setSocket true (app w)) (calls w) (outbox w)
  | StockUpdate data => mkWorld (stock_update data (app w)) (calls w) (outbox w)
  | ConnectError => mkWorld (connect_error (app w)) (calls w) (outbox w)
  | Select stock =>
      let id := length (calls w) in
      mkWorld (selectStart stock (app w))
              (calls w ++ [mkCall stock (socket (app w)) (Some AwaitHistory)])
              (outbox w ++
                 send id [GetStockHistory (stock_symbol stock) "1y" "1d"])
  | HistorySettled id response =>
      match calls w !! id with
      | Some c =>
          match call_stage c, response with
          | Some AwaitHistory, Resolved historyData =>
              mkWorld (setStockData historyData (app w))
                      (setStage id c (Some AwaitInfo) (calls w))
                      (outbox w ++
                         send id [GetStockInfo (stock_symbol (call_stock c))])
          | Some AwaitHistory, Rejected _ =>
              mkWorld (catchFinally (app w))
                      (setStage id c None (calls w)) (outbox w)
          | _, _ => w
          end
      | None => w
      end
  | InfoSettled id response =>
      match calls w !! id with
      | Some c =>
          match call_stage c, response with
          | Some AwaitInfo, Resolved infoData =>
              let sym := stock_symbol (call_stock c) in
              mkWorld (setStockInfo infoData (app w))
                      (setStage id c (Some AwaitPredictions) (calls w))
                      (outbox w ++
                         send id ((if call_socket c then [TrackStock sym]
                                   else []) ++
                                  ((λ model, PostPredict sym model 7)
                                     <$> models)))
          | Some AwaitInfo, Rejected _ =>
              mkWorld (catchFinally (app w))
                      (setStage id c None (calls w)) (outbox w)
          | _, _ => w
          end
      | None => w
      end
  | PredictionsSettled id responses =>
      match calls w !! id with
      | Some c =>
          match call_stage c with
          | Some AwaitPredictions =>
              mkWorld (afterPredictions
                         ((λ model, predictStock (responses model)) <$> models)
                         (app w))
                      (setStage id c None (calls w)) (outbox w)
          | _ => w
          end
      | None => w
      end
  end.

Definition run (w : World) (es : list Event) : World := foldl step w es.

(** *** Vocabulary of the statements *)

(** The last [n] entries of a buffer. *)
Definition keep (n : nat) (buf : list (Tick E Pred)) : list (Tick E Pred) :=
  drop (length buf - n) buf.

(** What a provider delivered: the forecast of a reply that reports success
    and carries [data.predictions]; nothing for a failed provider. *)
Definition delivered (result : PredictResult Pred) : option Pred :=
  if success result then d ← data result; data_predictions d else None.

(** What the reply of a provider delivers to the map: the forecast of a
    reply body with [success] and [data.predictions]; nothing for a
    rejected request, a body without them, or no body. *)
Definition forecastOf (response : Settled (option (PredictResult Pred)))
  : option Pred :=
  match response with
  | Resolved (Some body) => delivered body
  | Resolved None => None
  | Rejected _ => None
  end.

(** The reply has a body, or the request was rejected. *)
Definition hasBody (response : Settled (option (PredictResult Pred))) : bool :=
  match response with
  | Resolved None => false
  | _ => true
  end.

Definition isSelect (e : Event) : bool :=
  match e with Select _ => true | _ => false end.

(** The completions addressed to invocation [id]. *)
Definition addressedTo (id : nat) (e : Event) : bool :=
  match e with
  | HistorySettled i _ | InfoSettled i _ | PredictionsSettled i _ =>
      bool_decide (i = id)
  | _ => false
  end.

(** The events that cannot touch the data of a selection of [stock]: the
    socket events and the ticks for another symbol. *)
Definition foreign (stock : Stock) (e : Event) : bool :=
  match e with
  | SocketCreated | ConnectError => true
  | StockUpdate data =>
      negb (bool_decide (Feed.symbol data = stock_symbol stock))
  | _ => false
  end.

(** The requests an invocation has sent. *)
Definition sentBy (id : nat) (w : World) : list Request :=
  snd <$> filter (λ ir, ir.1 = id) (outbox w).

(** The requests of an invocation, in the order the code sends them: the
    history request before the first [await], the info request after it,
    and after the second the subscription (when the closure has a socket)
    with one forecast request per model. *)
Definition historyRequest (c : Call) : list Request :=
  [GetStockHistory (stock_symbol (call_stock c)) "1y" "1d"].
Definition infoRequest (c : Call) : list Request :=
  [GetStockInfo (stock_symbol (call_stock c))].
Definition forecastRequests (c : Call) : list Request :=
  (if call_socket c then [TrackStock (stock_symbol (call_stock c))] else [])
  ++ ((λ model, PostPredict (stock_symbol (call_stock c)) model 7) <$> models).

(** What an invocation may have sent, given where it is. *)
Definition protocol (c : Call) (sent : list Request) : Prop :=
  match call_stage c with
  | Some AwaitHistory => sent = historyRequest c
  | Some AwaitInfo => sent = historyRequest c ++ infoRequest c
  | Some AwaitPredictions =>
      sent = historyRequest c ++ infoRequest c ++ forecastRequests c
  | None =>
      sent = historyRequest c ∨
      sent = historyRequest c ++ infoRequest c ∨
      sent = historyRequest c ++ infoRequest c ++ forecastRequests c
  end.

(** Every invocation has sent what its progress allows, and every request
    in the outbox was sent by an invocation that exists. *)
Definition coherent (w : World) : Prop :=
  (∀ id c, calls w !! id = Some c → protocol c (sentBy id w)) ∧
  (∀ ir, ir ∈ outbox w → ir.1 < length (calls w)).

(** The test of the [stock_update] listener. *)
Definition accepts (s : State) (data : Tick E Pred) : bool :=
  socket s &&
  match selectedStock s with
  | Some sel => bool_decide (Feed.symbol data = stock_symbol sel)
  | None => false
  end.

(** *** What [App] renders

    The conditions of the JSX: the dashboard (chart, info, cards) under
    [selectedStock && stockData && !loading], and inside it the model
    comparison under [Object.keys(predictions).length > 1]. *)
Definition showsDashboard (s : State) : bool :=
  bool_decide (is_Some (selectedStock s)) &&
  bool_decide (is_Some (stockData s)) && negb (loading s).

Definition showsComparison (s : State) : bool :=
  showsDashboard s && (1 <? size (predictionsMap s)).

End App.

Arguments State : clear implicits.
Arguments World : clear implicits.
Arguments Event : clear implicits.

End App.

(** ** StockChart *)

Module StockChart.

Import Feed (Tick).

Section StockChart.

(** [E]: the elements of the arrays (date labels and prices), which
    [prepareChartData] only moves around.  [Pred]: the forecast payload
    carried by live ticks, not read here. *)
Context {E Pred : Type}.

(** *** The store of arrays

    JavaScript arrays are mutable objects reached through references:
    [push] changes the array for every holder of the reference.  A store
    maps a reference (the allocation index) to the array's contents; a
    computation threads the store and fails ([None]) where the script would
    throw a [TypeError] (spreading or measuring something that is not an
    array). *)
Abbreviation loc := nat.
Abbreviation heap := (list (list E)).
Definition M (A : Type) : Type := heap → option (A * heap).

Definition ret {A : Type} (x : A) : M A := λ h, Some (x, h).
Definition bind {A B : Type} (m : M A) (k : A → M B) : M B :=
  λ h, match m h with
       | Some (x, h') => k x h'
       | None => None
       end.

Notation "'do' x <- m ; k" := (bind m (λ x, k))
  (at level 10, x name, m at level 100, k at level 200).
Notation "'do' ' ( x , y ) <- m ; k" := (bind m (λ '(x, y), k))
  (at level 10, x name, y name, m at level 100, k at level 200).

(** A fresh array. *)
Definition alloc (a : list E) : M loc := λ h, Some (length h, h ++ [a]).
(** The contents of an array. *)
Definition read (l : loc) : M (list E) :=
  λ h, match h !! l with Some a => Some (a, h) | None => None end.
(** [arr.push(x)]: in place. *)
Definition push (l : loc) (x : E) : M unit :=
  λ h, match h !! l with
       | Some a => Some (tt, <[l := a ++ [x]]> h)
       | None => None
       end.
(** [[...arr]]: a fresh array with the same elements. *)
Definition spread (l : loc) : M loc := do a <- read l; alloc a.
(** [arr.slice(start)]: a fresh array. *)
Definition slice (l : loc) (start : Z) : M loc :=
  do a <- read l; alloc (JsArray.slice start a).
(** [arr.length]. *)
Definition length_of (l : loc) : M Z :=
  do a <- read l; ret (Z.of_nat (length a)).

Fixpoint forEach {A : Type} (l : list A) (f : A → M unit) : M unit :=
  match l with
  | [] => ret tt
  | x :: r => do _ <- f x; forEach r f
  end.

(** *** Props and state of the component *)

Record HistoricalData := { dates : loc; close : loc }.

Record PredictionData := {
  prediction_dates : loc;
  predicted_prices : loc;
  lower_bounds : loc;
  upper_bounds : loc;
}.

Record Props := {
  historicalData : option HistoricalData;
  realTimeData : option (list (Tick E Pred));
  predictions : option (gmap string PredictionData);
}.

Record ChartState := {
  timeRange : string;
  showPredictions : bool;
  selectedModel : string;
}.

(** The initial [useState] values. *)
Definition initialChartState : ChartState :=
  {| timeRange := "1y"; showPredictions := true; selectedModel := "arima" |}.

(** A Chart.js dataset: its label, the array it draws and its x axis; the
    colours and point sizes are constants and left out. *)
Record Dataset := {
  label : string;
  dataset_data : loc;
  xAxisID : option string;
}.

Record ChartData := {
  labels : loc;
  datasets : list Dataset;
  predictionDates : loc;
}.

(** The three branches of the time-range filter share this shape: the
    cutoff is computed from the dates and applied to both arrays. *)
Definition trailing (n : Z) (filteredDates filteredPrices : loc)
  : M (loc * loc) :=
  do len <- length_of filteredDates;
  let cutoff := (len - n)%Z in
  do fd <- slice filteredDates cutoff;
  do fp <- slice filteredPrices cutoff;
  ret (fd, fp).

(** [predictions && predictions[selectedModel]]. *)
Definition selectedPrediction (p : Props) (s : ChartState)
  : option PredictionData :=
  match predictions p with
  | Some m => m !! selectedModel s
  | None => None
  end.

(** The three datasets pushed for the selected model: the prediction line
    and the two sides of the confidence band, on the second x axis. *)
Definition predictionDatasets (selectedModel : string)
    (predictionData : PredictionData) : list Dataset :=
  [ {| label := JsArray.toUpperCase selectedModel +:+ " Prediction";
       dataset_data := predicted_prices predictionData;
       xAxisID := Some "x2" |};
    {| label := "Confidence Interval";
       dataset_data := upper_bounds predictionData;
       xAxisID := Some "x2" |};
    {| label := "Lower Bound";
       dataset_data := lower_bounds predictionData;
       xAxisID := Some "x2" |} ].

Definition prepareChartData (p : Props) (s : ChartState)
  : M (option ChartData) :=
  match historicalData p with
  | None => ret None
  | Some hd =>
      do filteredDates <- spread (dates hd);
      do filteredPrices <- spread (close hd);
      do '(filteredDates, filteredPrices) <-
        (if String.eqb (timeRange s) "1m"
         then trailing 30 filteredDates filteredPrices
         else if String.eqb (timeRange s) "3m"
         then trailing 90 filteredDates filteredPrices
         else if String.eqb (timeRange s) "6m"
         then trailing 180 filteredDates filteredPrices
         else ret (filteredDates, filteredPrices));
      do _ <-
        (match realTimeData p with
         | Some rt =>
             if 0 <? length rt then
               forEach rt (λ data,
                 do _ <- push filteredDates (Feed.timestamp data);
                 push filteredPrices (Feed.price data))
             else ret tt
         | None => ret tt
         end);
      let datasets :=
        [ {| label := "Historical Price";
             dataset_data := filteredPrices;
             xAxisID := None |} ] in
      let datasets :=
        match (if showPredictions s then selectedPrediction p s else None) with
        | Some predictionData =>
            datasets ++ predictionDatasets (selectedModel s) predictionData
        | None => datasets
        end in
      do predictionDates <-
        (match selectedPrediction p s with
         | Some predictionData => ret (prediction_dates predictionData)
         | None => alloc []
         end);
      ret (Some {| labels := filteredDates;
                   datasets := datasets;
                   predictionDates := predictionDates |})
  end.

(** *** What the returned object shows

    The contents, in a given store, of the arrays the returned object
    refers to. *)
Record ChartView := {
  view_labels : option (list E);
  view_datasets : list (string * option (list E) * option string);
  view_predictionDates : option (list E);
}.

Definition view (h : heap) (cd : ChartData) : ChartView :=
  {| view_labels := h !! labels cd;
     view_datasets :=
       (λ d, (label d, h !! dataset_data d, xAxisID d)) <$> datasets cd;
     view_predictionDates := h !! predictionDates cd |}.

(** *** Vocabulary of the statements *)

(** The primary price series is the data of the first dataset. *)
Definition primaryPrices (h : heap) (cd : ChartData) : option (list E) :=
  match datasets cd with
  | d :: _ => h !! dataset_data d
  | [] => None
  end.

(** The historical part for a time range, as a function of the arrays'
    contents: what the filter leaves of an array [a] when the dates array
    has [n] elements. *)
Definition lookback {A : Type} (range : string) (n : nat) (a : list A)
  : list A :=
  if String.eqb range "1m" then JsArray.slice (Z.of_nat n - 30) a
  else if String.eqb range "3m" then JsArray.slice (Z.of_nat n - 90) a
  else if String.eqb range "6m" then JsArray.slice (Z.of_nat n - 180) a
  else a.

(** The live ticks that are drawn. *)
Definition liveTicks (p : Props) : list (Tick E Pred) :=
  default [] (realTimeData p).

(** The props refer to arrays of the store: the two historical arrays and
    the arrays of the selected forecast exist.  (A JavaScript reference
    always points to an object; for an index into the store this has to be
    said.) *)
Definition allocated (h : heap) (p : Props) (s : ChartState) : Prop :=
  (∀ hd, historicalData p = Some hd →
     dates hd < length h ∧ close hd < length h) ∧
  (∀ pd, selectedPrediction p s = Some pd →
     prediction_dates pd < length h ∧ predicted_prices pd < length h ∧
     upper_bounds pd < length h ∧ lower_bounds pd < length h).

(** The assembly as a function of the contents of the input arrays: what
    [prepareChartData] shows, without the store it builds on the way. *)
Definition assembled (h : heap) (p : Props) (s : ChartState)
  : option ChartView :=
  match historicalData p with
  | None => None
  | Some hd =>
      match h !! dates hd, h !! close hd with
      | Some ds, Some cs =>
          Some
            {| view_labels :=
                 Some (lookback (timeRange s) (length ds) ds
                         ++ (Feed.timestamp <$> liveTicks p));
               view_datasets :=
                 ("Historical Price",
                  Some (lookback (timeRange s) (length ds) cs
                          ++ (Feed.price <$> liveTicks p)),
                  None)
                 :: ((λ d, (label d, h !! dataset_data d, xAxisID d)) <$>
                     match (if showPredictions s then selectedPrediction p s
                            else None) with
                     | Some pd => predictionDatasets (selectedModel s) pd
                     | None => []
                     end);
               view_predictionDates :=
                 match selectedPrediction p s with
                 | Some pd => h !! prediction_dates pd
                 | None => Some []
                 end |}
      | _, _ => None
      end
  end.

(** One invocation, and what its result shows in the store it leaves;
    nothing when it returns [null]. *)
Definition render (p : Props) (s : ChartState) (h : heap)
  : option ChartView :=
  match prepareChartData p s h with
  | Some (Some cd, h1) => Some (view h1 cd)
  | _ => None
  end.

(** All pairs in order: a strictly increasing sequence for the order [lt]. *)
Definition strictly_increasing (lt : E → E → Prop) (l : list E) : Prop :=
  ∀ i j x y, i < j → l !! i = Some x → l !! j = Some y → lt x y.

(** *** Chart options and the latest-price panel *)

(** An item handed to a tooltip callback by Chart.js. *)
Record TooltipItem := { dataIndex : nat; datasetIndex : nat }.

(** [chartOptions.plugins.tooltip.callbacks.title].  Reading
    [tooltipItems[0]] of an empty array throws; [predictionDates] is an
    array and so always truthy; an index out of range reads [undefined]
    ([None]). *)
Definition title (chartData : ChartData) (tooltipItems : list TooltipItem)
  : M (option E) :=
  match tooltipItems with
  | [] => λ _, None
  | item :: _ =>
      let idx := dataIndex item in
      let datasetIdx := datasetIndex item in
      if 0 <? datasetIdx then
        do a <- read (predictionDates chartData); ret (a !! idx)
      else
        do a <- read (labels chartData); ret (a !! idx)
  end.

(** [chartOptions.plugins.legend.labels.filter], on the item's text. *)
Definition legendFilter (text : string) : bool :=
  negb (String.eqb text "Lower Bound").

(** The texts of the legend: one item per dataset, those the filter
    keeps. *)
Definition legendTexts (cd : ChartData) : list string :=
  filter (λ text, legendFilter text = true) (label <$> datasets cd).

(** The tick of the latest-price panel,
    [realTimeData[realTimeData.length - 1]], shown under
    [realTimeData && realTimeData.length > 0]. *)
Definition latestTick (p : Props) : option (Tick E Pred) :=
  match realTimeData p with
  | Some rt => if 0 <? length rt then rt !! (length rt - 1) else None
  | None => None
  end.

(** The number of entries a time range asks for; none for ['1y'] and for
    any other value, which the filter leaves alone. *)
Definition window (range : string) : option nat :=
  if String.eqb range "1m" then Some 30
  else if String.eqb range "3m" then Some 90
  else if String.eqb range "6m" then Some 180
  else None.

End StockChart.

Arguments M : clear implicits.
Arguments Props : clear implicits.
Arguments ChartView : clear implicits.

End StockChart.

(** ** ModelComparison

    The third component of [StockChart.js].  JavaScript numbers are a type
    parameter, with the arithmetic the component uses as parameters of the
    section: the statements below hold whatever the arithmetic does. *)

Module ModelComparison.

Section ModelComparison.

Context {R : Type}.
(** A numeric literal, and [undefined] (read from an array out of
    range). *)
Variable num : Z → R.
Variable undef : R.
(** [a - b], [a / b], [a * b], [a + b] and [a > b]. *)
Variables sub div mul add : R → R → R.
Variable gt : R → R → bool.

(** One entry of the [predictions] prop; a field is [None] when it is
    missing. *)
Record ModelPredictions := {
  predicted_prices : option (list R);
  upper_bounds : option (list R);
  lower_bounds : option (list R);
}.

Record StockData := { close : option (list R) }.

(** [predictions] is [null] or an object whose values may be missing. *)
Abbreviation Predictions := (option (gmap string (option ModelPredictions))).

Record Metrics := {
  predictedChange : R;
  avgConfidenceWidth : R;
  historicalAccuracy : R;
  predictionStability : R;
}.

(** [a[i]]. *)
Definition at_index (a : list R) (i : nat) : R := default undef (a !! i).

Definition historicalAccuracyOf (model : string) : R :=
  if String.eqb model "arima" then num 85
  else if String.eqb model "prophet" then num 88 else num 82.
Definition predictionStabilityOf (model : string) : R :=
  if String.eqb model "arima" then num 78
  else if String.eqb model "prophet" then num 92 else num 85.

(** The predictions of a model are complete when the three arrays are
    there and [predicted_prices] is not empty. *)
Definition complete (mp : option ModelPredictions)
  : option (list R * list R * list R) :=
  match mp with
  | Some m =>
      match predicted_prices m, upper_bounds m, lower_bounds m with
      | Some pp, Some ub, Some lb =>
          if length pp =? 0 then None else Some (pp, ub, lb)
      | _, _, _ => None
      end
  | None => None
  end.

(** The body of [modelNames.forEach(model => ...)] in
    [calculateMetrics]. *)
Definition metricsOf (model : string) (mp : option ModelPredictions)
  : Metrics :=
  match complete mp with
  | None =>
      {| predictedChange := num 0;
         avgConfidenceWidth := num 0;
         historicalAccuracy := historicalAccuracyOf model;
         predictionStability := predictionStabilityOf model |}
  | Some (pp, ub, lb) =>
      let firstPrice := at_index pp 0 in
      let lastPrice := at_index pp (length pp - 1) in
      {| predictedChange := mul (div (sub lastPrice firstPrice) firstPrice)
                                (num 100);
         avgConfidenceWidth :=
           div (foldl add (num 0)
                  (imap (λ i price,
                     mul (div (sub (at_index ub i) (at_index lb i)) price)
                         (num 100)) pp))
               (num (Z.of_nat (length pp)));
         historicalAccuracy := historicalAccuracyOf model;
         predictionStability := predictionStabilityOf model |}
  end.

(** [calculateMetrics]: an entry for every key of [predictions || {}]. *)
Definition calculateMetrics (predictions : Predictions)
  : gmap string Metrics :=
  map_imap (λ model mp, Some (metricsOf model mp)) (default ∅ predictions).

(** [metrics]. *)
Definition metrics (predictions : Predictions) : gmap string Metrics :=
  match predictions with
  | Some m => if 0 <? size m then calculateMetrics predictions else ∅
  | None => ∅
  end.

(** The component returns the message "Waiting for valid prediction data
    from all models..." instead of the charts. *)
Definition waiting (predictions : Predictions) : bool :=
  size (metrics predictions) =? 0.

Inductive Direction := up | down | unknown.

Record DirectionItem := {
  model : string;
  direction : Direction;
  changePercent : R;
  lastPredictedPrice : R;
}.

(** The body of [modelNames.map(model => ...)] in
    [preparePredictionDirectionData]. *)
Definition directionOf (currentPrice : R) (name : string)
    (mp : option ModelPredictions) : DirectionItem :=
  match mp with
  | Some {| predicted_prices := Some pp |} =>
      if length pp =? 0 then
        {| model := name; direction := unknown;
           changePercent := num 0; lastPredictedPrice := currentPrice |}
      else
        let last := at_index pp (length pp - 1) in
        {| model := name;
           direction := if gt last currentPrice then up else down;
           changePercent :=
             mul (div (sub last currentPrice) currentPrice) (num 100);
           lastPredictedPrice := last |}
  | _ =>
      {| model := name; direction := unknown;
         changePercent := num 0; lastPredictedPrice := currentPrice |}
  end.

(** [directionData]: [preparePredictionDirectionData()] under
    [predictions && stockData].  The items follow the keys of the object;
    their order is that of [map_to_list], not the insertion order. *)
Definition directionData (predictions : Predictions)
    (stockData : option StockData) : list DirectionItem :=
  match predictions, stockData with
  | Some m, Some sd =>
      match close sd with
      | Some cl =>
          if length cl =? 0 then []
          else
            let currentPrice := at_index cl (length cl - 1) in
            (λ kv, directionOf currentPrice kv.1 kv.2) <$> map_to_list m
      | None => []
      end
  | _, _ => []
  end.

End ModelComparison.

End ModelComparison.

(** ** Scenarios

    Concrete sessions and charts, with natural numbers for the payloads
    the code does not inspect and integers for dates and prices. *)

Module Scenario.

Import api App.
Import Feed (Tick, mkTick).

Abbreviation World := (App.World nat nat nat Z).
Abbreviation Event := (App.Event nat nat nat Z).

Definition aapl : Stock := {| stock_symbol := "AAPL"; stock_name := "Apple Inc." |}.
Definition msft : Stock :=
  {| stock_symbol := "MSFT"; stock_name := "Microsoft Corporation" |}.

(** A tick without forecasts; the price follows the timestamp. *)
Definition tick (sym : string) (t : Z) : Tick Z nat := mkTick sym t (t + 100)%Z None.

(** A provider reply that succeeds with forecast [n]. *)
Definition forecastReply (n : nat) : Settled (option (PredictResult nat)) :=
  Resolved (Some {| success := true;
                    data := Some {| data_predictions := Some n |};
                    error := None |}).

(** [aapl] selected, its history and info loaded, the socket subscribed and
    the three forecast requests in flight. *)
Definition aaplLoading : list Event :=
  [SocketCreated; Select aapl;
   HistorySettled 0 (Resolved (Some 1)); InfoSettled 0 (Resolved (Some 1))].

(** The user switches to [msft] while the forecasts for [aapl] are
    outstanding. *)
Definition switchedToMsft : World :=
  run initialWorld (aaplLoading ++ [Select msft]).

(** The user goes to [msft] and back to [aapl]; the third invocation still
    waits for its history, so it has not subscribed. *)
Definition backToAapl : World :=
  run initialWorld (aaplLoading ++ [Select msft; Select aapl]).

(** [aapl] selected on a connected socket. *)
Definition aaplSelected : World := run initialWorld [SocketCreated; Select aapl].

(** Ticks 1 to 150 for [aapl]. *)
Definition ticks150 : list (Tick Z nat) :=
  (λ i, tick "AAPL" (Z.of_nat i)) <$> seq 1 150.

(** A tick for [aapl] that carries a forecast of the ARIMA provider. *)
Definition tickWithForecast : Tick Z nat :=
  mkTick "AAPL" 1%Z 101%Z (Some {["arima" := 9]}).

Import StockChart.

Abbreviation Props := (StockChart.Props Z nat).

(** Three historical days, a forecast for days 4 and 5, and the tick of
    day 4 delivered twice by the feed. *)
Definition chartHeap : list (list Z) :=
  [ [1; 2; 3]; [101; 102; 103];
    [4; 5]; [104; 105]; [100; 101]; [108; 109] ]%Z.

Definition arimaForecast : PredictionData :=
  {| prediction_dates := 2; predicted_prices := 3;
     lower_bounds := 4; upper_bounds := 5 |}.

Definition redeliveredProps : Props :=
  {| historicalData := Some {| dates := 0; close := 1 |};
     realTimeData := Some [tick "AAPL" 4; tick "AAPL" 4];
     predictions := Some {["arima" := arimaForecast]} |}.

(** The same chart with one tick, of day 4, and the forecast starting on
    day 5. *)
Definition orderedHeap : list (list Z) :=
  [ [1; 2; 3]; [101; 102; 103];
    [5; 6]; [105; 106]; [100; 101]; [108; 109] ]%Z.

Definition orderedProps : Props :=
  {| historicalData := Some {| dates := 0; close := 1 |};
     realTimeData := Some [tick "AAPL" 4];
     predictions := Some {["arima" := arimaForecast]} |}.

(** A series of 29 trading days, no live tick, no forecast. *)
Definition shortHeap : list (list Z) :=
  [ (λ i, Z.of_nat i) <$> seq 1 29; (λ i, Z.of_nat (100 + i)) <$> seq 1 29 ].

Definition shortProps : Props :=
  {| historicalData := Some {| dates := 0; close := 1 |};
     realTimeData := Some [];
     predictions := Some ∅ |}.

(** A series of 252 trading days. *)
Definition yearHeap : list (list Z) :=
  [ (λ i, Z.of_nat i) <$> seq 1 252; (λ i, Z.of_nat (100 + i)) <$> seq 1 252 ].

Definition oneMonth : ChartState :=
  {| timeRange := "1m"; showPredictions := true; selectedModel := "arima" |}.

(** A tick for [aapl] that carries a forecast of the ML provider. *)
Definition tickWithMlForecast : Tick Z nat :=
  mkTick "AAPL" 2%Z 102%Z (Some {["ml" := 4]}).

(** The first invocation of [aaplLoading], waiting for its forecasts. *)
Definition firstCall : Call :=
  {| call_stock := aapl; call_socket := true;
     call_stage := Some AwaitPredictions |}.

(** The pointer on the fourth point of the historical line. *)
Definition fourthPoint : TooltipItem := {| dataIndex := 3; datasetIndex := 0 |}.

(** An earlier tick for [aapl] with a first ARIMA forecast. *)
Definition tickWithOldArima : Tick Z nat :=
  mkTick "AAPL" 0%Z 100%Z (Some {["arima" := 1]}).

(** [aapl] selected, with an ML and an ARIMA forecast already merged. *)
Definition withTwoForecasts : World :=
  run aaplSelected [StockUpdate tickWithMlForecast; StockUpdate tickWithOldArima].

(** The replies of the three providers: only Prophet succeeds; none
    succeeds; the ML provider replies without body. *)
Definition prophetOnly : string → Settled (option (PredictResult nat)) :=
  λ model, if String.eqb model "prophet" then forecastReply 7
           else Rejected "Network Error".
Definition allRejected : string → Settled (option (PredictResult nat)) :=
  λ _, Rejected "Network Error".
Definition mlWithoutBody : string → Settled (option (PredictResult nat)) :=
  λ model, if String.eqb model "ml" then Resolved None else forecastReply 7.

(** The user switched from [aapl] to [msft]; both invocations wait for
    their forecasts. *)
Definition bothAwaitingForecasts : World :=
  run initialWorld
      (aaplLoading ++
       [Select msft; HistorySettled 1 (Resolved (Some 2));
        InfoSettled 1 (Resolved (Some 2))]).

(** The second invocation of [bothAwaitingForecasts]. *)
Definition secondCall : Call :=
  {| call_stock := msft; call_socket := true;
     call_stage := Some AwaitPredictions |}.

(** The user selects [aapl] and then [msft] before any reply; the history
    of [aapl] arrives, then the history request of [msft] fails. *)
Definition historyRace : list Event :=
  [SocketCreated; Select aapl; Select msft;
   HistorySettled 0 (Resolved (Some 1))].

(** Predictions for the comparison, with integers for the numbers: ARIMA
    with two predicted prices, Prophet without any. *)
Definition comparedPredictions
  : gmap string (option (@ModelComparison.ModelPredictions Z)) :=
  {[ "arima" := Some {| ModelComparison.predicted_prices := Some [104; 105]%Z;
                        ModelComparison.upper_bounds := Some [108; 109]%Z;
                        ModelComparison.lower_bounds := Some [100; 101]%Z |};
     "prophet" := Some {| ModelComparison.predicted_prices := Some [];
                          ModelComparison.upper_bounds := None;
                          ModelComparison.lower_bounds := None |} ]}.

End Scenario.

(** * Properties of the session state *)

Module JsArrayFacts.

Lemma slice_nonneg {A : Type} (start : Z) (a : list A) :
  (0 ≤ start)%Z → JsArray.slice start a = drop (Z.to_nat start) a.
Proof.
  intros Hs. unfold JsArray.slice.
  destruct (Z.ltb_spec start 0) as [?|_]; [lia|].
  destruct (Z.le_gt_cases start (Z.of_nat (length a))) as [Hle|Hgt].
  - by rewrite Z.min_l.
  - rewrite Z.min_r by lia. rewrite Nat2Z.id.
    rewrite !drop_ge; [done| lia | lia].
Qed.

Lemma slice_neg {A : Type} (start : Z) (a : list A) :
  (start < 0)%Z →
  JsArray.slice start a = drop (Z.to_nat (Z.of_nat (length a) + start)) a.
Proof.
  intros Hs. unfold JsArray.slice.
  destruct (Z.ltb_spec start 0) as [_|?]; [|lia].
  f_equal. lia.
Qed.

(** Whatever the start, [slice] returns a suffix. *)
Lemma slice_drop {A : Type} (start : Z) (a : list A) :
  ∃ k, k ≤ length a ∧ JsArray.slice start a = drop k a.
Proof.
  unfold JsArray.slice. eexists. split; [|done].
  destruct (start <? 0)%Z eqn:Hs; lia.
Qed.

Lemma lookup_snoc_length {A : Type} (l : list A) (x : A) :
  (l ++ [x]) !! length l = Some x.
Proof. by apply list_lookup_middle. Qed.

Lemma insert_snoc_length {A : Type} (l : list A) (x y : A) :
  <[length l := y]> (l ++ [x]) = l ++ [y].
Proof.
  rewrite insert_app_r_alt by lia. by rewrite Nat.sub_diag.
Qed.

End JsArrayFacts.

Module AppFacts.

Import JsArrayFacts.
Import api App.
Import Feed (Tick).

Section AppFacts.

Context {Hist Info Pred E : Type}.

Abbreviation State := (State Hist Info Pred E).
Abbreviation World := (World Hist Info Pred E).
Abbreviation Event := (Event Hist Info Pred E).

Implicit Types (s : State) (w : World) (e : Event) (es : list Event).
Implicit Types (data d : Tick E Pred) (ticks buf : list (Tick E Pred)).

(** ** The live buffer *)

Lemma appendTick_keep d buf : appendTick d buf = keep 100 (buf ++ [d]).
Proof.
  unfold appendTick, keep.
  destruct (Nat.ltb_spec 100 (length (buf ++ [d]))) as [Hlt|Hle].
  - rewrite JsArrayFacts.slice_nonneg by lia. f_equal. lia.
  - replace (length (buf ++ [d]) - 100) with 0 by lia. done.
Qed.

Lemma keep_length n buf : length (keep n buf) ≤ n.
Proof. unfold keep. rewrite length_drop. lia. Qed.

Lemma keep_snoc n buf d : keep n (keep n buf ++ [d]) = keep n (buf ++ [d]).
Proof.
  unfold keep. rewrite !length_app, length_drop. simpl.
  destruct (decide (length buf ≤ n)) as [Hle|Hgt].
  - replace (length buf - n) with 0 by lia.
    by rewrite drop_0, Nat.sub_0_r.
  - destruct (decide (n = 0)) as [->|Hn].
    + rewrite !drop_ge; [done| |]; rewrite length_app, ?length_drop; simpl; lia.
    + rewrite !drop_app_le by (rewrite ?length_drop; lia).
      rewrite drop_drop. do 2 f_equal. lia.
Qed.

Lemma appendTick_length d buf : length (appendTick d buf) ≤ 100.
Proof. rewrite appendTick_keep. apply keep_length. Qed.

Lemma foldl_appendTick ticks buf :
  length buf ≤ 100 →
  foldl (λ b d, appendTick d b) buf ticks = keep 100 (buf ++ ticks).
Proof.
  intros Hbuf. induction ticks as [|d ticks IH] using rev_ind.
  - rewrite app_nil_r. unfold keep.
    replace (length buf - 100) with 0 by lia. done.
  - rewrite foldl_app. simpl. rewrite IH, appendTick_keep.
    rewrite keep_snoc. by rewrite app_assoc.
Qed.

(** A tick for the selected instrument goes through the two updaters. *)
Lemma stock_update_accept d s sel :
  socket s = true → selectedStock s = Some sel →
  Feed.symbol d = stock_symbol sel →
  realTimeData (stock_update d s) = appendTick d (realTimeData s) ∧
  socket (stock_update d s) = true ∧
  selectedStock (stock_update d s) = Some sel.
Proof.
  intros Hs Hsel Hsym. unfold stock_update. rewrite Hs, Hsel.
  rewrite decide_True by done.
  by destruct (Feed.predictions d).
Qed.

Lemma run_app w es e : run w (es ++ [e]) = step (run w es) e.
Proof. unfold run. by rewrite foldl_app. Qed.

Lemma run_ticks w sel ticks :
  socket (app w) = true → selectedStock (app w) = Some sel →
  Forall (λ d, Feed.symbol d = stock_symbol sel) ticks →
  let w' := run w (StockUpdate <$> ticks) in
  socket (app w') = true ∧ selectedStock (app w') = Some sel ∧
  realTimeData (app w') =
    foldl (λ b d, appendTick d b) (realTimeData (app w)) ticks.
Proof.
  intros Hs Hsel Hall. induction ticks as [|d ticks IH] using rev_ind; [done|].
  apply Forall_app in Hall as [Hall Hd]. apply Forall_inv in Hd.
  destruct (IH Hall) as (IHs & IHsel & IHbuf).
  rewrite fmap_app. simpl. rewrite run_app, foldl_app. simpl.
  destruct (stock_update_accept d _ sel IHs IHsel Hd) as (-> & -> & ->).
  by rewrite IHbuf.
Qed.

(** The bound holds at every state the component can reach. *)
Lemma step_buffer_bounded w e :
  length (realTimeData (app w)) ≤ 100 →
  length (realTimeData (app (step w e))) ≤ 100.
Proof.
  intros Hw. destruct e as [|d| |stock|id r|id r|id r]; simpl; try done.
  - unfold stock_update. destruct (socket _); [|done].
    destruct (selectedStock _); [|done]. case_decide; [|done].
    destruct (Feed.predictions d); simpl; apply appendTick_length.
  - unfold connect_error. by destruct (socket _).
  - lia.
  - destruct (calls w !! id) as [c|]; [|done].
    destruct (call_stage c) as [[]|], r; done.
  - destruct (calls w !! id) as [c|]; [|done].
    destruct (call_stage c) as [[]|], r; done.
  - destruct (calls w !! id) as [c|]; [|done].
    destruct (call_stage c) as [[]|]; try done.
    simpl. unfold afterPredictions. by repeat case_match.
Qed.

Lemma reachable_buffer_bounded es :
  length (realTimeData (app (run (@initialWorld Hist Info Pred E) es))) ≤ 100.
Proof.
  induction es as [|e es IH] using rev_ind; [simpl; lia|].
  rewrite run_app. by apply step_buffer_bounded.
Qed.

(** C2. The live buffer never holds more than 100 entries: pushing any
    sequence of ticks for the selected instrument onto a buffer within the
    bound leaves it within the bound; and once more than 100 ticks have been
    pushed onto the freshly reset buffer it holds exactly the last 100 of
    them, in arrival order. *)
Theorem live_buffer_keeps_last_100 w sel ticks :
  socket (app w) = true →
  selectedStock (app w) = Some sel →
  Forall (λ d, Feed.symbol d = stock_symbol sel) ticks →
  length (realTimeData (app w)) ≤ 100 →
  let buf := realTimeData (app (run w (StockUpdate <$> ticks))) in
  length buf ≤ 100 ∧
  (realTimeData (app w) = [] → 100 < length ticks →
   length buf = 100 ∧ buf = drop (length ticks - 100) ticks).
Proof.
  intros Hs Hsel Hall Hbound buf.
  destruct (run_ticks w sel ticks Hs Hsel Hall) as (_ & _ & Hbuf).
  subst buf. rewrite Hbuf, foldl_appendTick by done. split.
  - apply keep_length.
  - intros -> Hlen. simpl. unfold keep. rewrite length_drop. split; [lia|done].
Qed.

(** ** Ticks for another instrument *)

Lemma stock_update_foreign d s :
  (∀ sel, selectedStock s = Some sel → Feed.symbol d ≠ stock_symbol sel) →
  stock_update d s = s.
Proof.
  intros Hne. unfold stock_update. destruct (socket s); [|done].
  destruct (selectedStock s) as [sel|]; [|done].
  rewrite decide_False; [done|]. by apply Hne.
Qed.

(** C8 (as amended). A tick whose symbol differs from the selected
    instrument's symbol, or any tick while nothing is selected, is dropped
    without a trace: the component state, and with it the live buffer, the
    prediction map, the error and the loading flag, is unchanged, and
    nothing is sent. *)
Theorem foreign_tick_discarded w d :
  (∀ sel, selectedStock (app w) = Some sel →
          Feed.symbol d ≠ stock_symbol sel) →
  step w (StockUpdate d) = w.
Proof.
  intros Hne. destruct w as [s cs out]. simpl in *.
  by rewrite stock_update_foreign.
Qed.

(** ** The live buffer belongs to the selection *)

Lemma appendTick_Forall (P : Tick E Pred → Prop) d buf :
  P d → Forall P buf → Forall P (appendTick d buf).
Proof.
  intros Hd Hbuf. rewrite appendTick_keep. unfold keep.
  apply Forall_drop, Forall_app. split; [done|]. by apply Forall_singleton.
Qed.

Lemma step_keeps_selection w e sel :
  isSelect e = false →
  selectedStock (app w) = Some sel →
  Forall (λ d, Feed.symbol d = stock_symbol sel) (realTimeData (app w)) →
  selectedStock (app (step w e)) = Some sel ∧
  Forall (λ d, Feed.symbol d = stock_symbol sel)
         (realTimeData (app (step w e))).
Proof.
  intros He Hsel Hbuf.
  destruct e as [|d| |stock|id r|id r|id r]; simpl in *; try done.
  - unfold stock_update. destruct (socket _); [|done].
    rewrite Hsel. case_decide; [|done].
    destruct (Feed.predictions d); simpl; (split; [done|]);
      by apply appendTick_Forall.
  - unfold connect_error. by destruct (socket _).
  - destruct (calls w !! id) as [c|]; [|done].
    destruct (call_stage c) as [[]|], r; done.
  - destruct (calls w !! id) as [c|]; [|done].
    destruct (call_stage c) as [[]|], r; done.
  - destruct (calls w !! id) as [c|]; [|done].
    destruct (call_stage c) as [[]|]; try done.
    simpl. unfold afterPredictions. by repeat case_match.
Qed.

Lemma run_keeps_selection es w sel :
  forallb (λ e, negb (isSelect e)) es = true →
  selectedStock (app w) = Some sel →
  Forall (λ d, Feed.symbol d = stock_symbol sel) (realTimeData (app w)) →
  selectedStock (app (run w es)) = Some sel ∧
  Forall (λ d, Feed.symbol d = stock_symbol sel)
         (realTimeData (app (run w es))).
Proof.
  revert w. induction es as [|e es IH]; intros w Hes Hsel Hbuf; [done|].
  simpl in Hes. apply andb_prop in Hes as [He Hes].
  apply negb_true_iff in He.
  destruct (step_keeps_selection w e sel He Hsel Hbuf) as [Hsel' Hbuf'].
  by apply (IH (step w e)).
Qed.

(** C1 (as amended). After [select(B)], whatever was outstanding for an
    earlier instrument and in whatever order ticks and completions arrive
    before the next selection, every tick held in the live buffer carries
    B's symbol: a tick for another instrument is never appended. *)
Theorem buffer_holds_only_selected_symbol w stockB es d :
  forallb (λ e, negb (isSelect e)) es = true →
  d ∈ realTimeData (app (run w (Select stockB :: es))) →
  Feed.symbol d = stock_symbol stockB.
Proof.
  intros Hes Hd.
  destruct (run_keeps_selection es (step w (Select stockB)) stockB Hes)
    as [_ Hall]; [done|by apply Forall_nil|].
  rewrite Forall_forall in Hall. by apply Hall.
Qed.

(** ** Merging forecasts carried by a tick *)

Lemma mergePredictions_lookup (incoming prev : gmap string Pred) k :
  mergePredictions incoming prev !! k =
    match incoming !! k with Some p => Some p | None => prev !! k end.
Proof.
  unfold mergePredictions. destruct (incoming !! k) as [p|] eqn:Hk.
  - by apply lookup_union_Some_l.
  - by apply lookup_union_r.
Qed.

Lemma stock_update_predictions d s k :
  (∀ incoming, Feed.predictions d = Some incoming → incoming !! k = None) →
  predictionsMap (stock_update d s) !! k = predictionsMap s !! k.
Proof.
  intros Hk. unfold stock_update. destruct (socket s); [|done].
  destruct (selectedStock s); [|done]. case_decide; [|done].
  destruct (Feed.predictions d) as [incoming|] eqn:Hd; [|done].
  simpl. rewrite mergePredictions_lookup. by rewrite (Hk incoming).
Qed.

(** C9. Merging the result of one provider into the prediction map
    overwrites that provider's key only: whatever the listener does with
    the tick, under every other model key the map holds afterwards what it
    held before; and when the listener accepts the tick, the provider's key
    holds the new forecast. *)
Theorem merge_overwrites_only_that_model s d model forecast :
  Feed.predictions d = Some {[model := forecast]} →
  (∀ k, k ≠ model →
        predictionsMap (stock_update d s) !! k = predictionsMap s !! k) ∧
  (accepts s d = true →
   predictionsMap (stock_update d s) !! model = Some forecast) ∧
  (accepts s d = false → predictionsMap (stock_update d s) = predictionsMap s).
Proof.
  intros Hd. split_and!.
  - intros k Hk. apply stock_update_predictions. intros incoming Hinc.
    rewrite Hd in Hinc. injection Hinc as <-.
    by apply lookup_singleton_ne.
  - unfold accepts, stock_update. intros Hacc.
    apply andb_prop in Hacc as [-> Hsel].
    destruct (selectedStock s) as [sel|]; [|done].
    apply bool_decide_eq_true_1 in Hsel. rewrite decide_True by done.
    rewrite Hd. simpl. rewrite mergePredictions_lookup.
    by rewrite lookup_singleton_eq.
  - unfold accepts, stock_update. intros Hacc.
    destruct (socket s); [|done]. simpl in Hacc.
    destruct (selectedStock s) as [sel|]; [|done].
    apply bool_decide_eq_false_1 in Hacc. by rewrite decide_False.
Qed.

(** ** A selection whose history request fails *)

(** The [catch] and [finally] blocks write the error and the loading flag
    and nothing else, whatever happened since the selection. *)
Lemma history_failure_frame w id c message :
  calls w !! id = Some c → call_stage c = Some AwaitHistory →
  let w' := step w (HistorySettled id (Rejected message)) in
  stockData (app w') = stockData (app w) ∧
  stockInfo (app w') = stockInfo (app w) ∧
  predictionsMap (app w') = predictionsMap (app w) ∧
  realTimeData (app w') = realTimeData (app w) ∧
  selectedStock (app w') = selectedStock (app w) ∧
  errorMsg (app w') = Some fetchFailedMessage ∧
  loading (app w') = false ∧
  outbox w' = outbox w.
Proof. intros Hc Hst. simpl. by rewrite Hc, Hst. Qed.

(** An invocation that has returned ignores every later completion. *)
Lemma returned_call_inert w id c e :
  calls w !! id = Some c → call_stage c = None →
  match e with
  | HistorySettled i _ | InfoSettled i _ | PredictionsSettled i _ => i = id
  | _ => False
  end →
  step w e = w.
Proof.
  intros Hc Hst He.
  destruct e as [|d| |stock|i r|i r|i r]; try done; subst i; simpl;
    by rewrite Hc, Hst.
Qed.

(** ** The prediction map built by [handleStockSelect] *)

Lemma organizeStep_delivered (ms : list string) (acc : gmap string Pred) i r :
  organizeStep ms acc (i, r) =
    match delivered r with
    | Some p => <[default "undefined" (ms !! i) := p]> acc
    | None => acc
    end.
Proof.
  unfold organizeStep, delivered. destruct (success r); [|done].
  destruct (data r) as [dt|]; [|done]. simpl.
  by destruct (data_predictions dt).
Qed.

Lemma organize_snoc (ms : list string) (rs : list (PredictResult Pred)) r :
  organize ms (rs ++ [r]) = organizeStep ms (organize ms rs) (length rs, r).
Proof.
  unfold organize. rewrite length_app. simpl. rewrite seq_app. simpl.
  rewrite zip_with_app by by rewrite length_seq.
  by rewrite foldl_app.
Qed.

Section organize.

Variable ms : list string.
Hypothesis ms_NoDup : NoDup ms.

(** The [forEach] over the results, one result per model in the order of
    [ms]: the entry of a model is what its provider delivered, no other key
    appears, and the map has as many entries as providers delivered. *)
Lemma organize_spec (rs : list (PredictResult Pred)) :
  length rs ≤ length ms →
  (∀ i m r, ms !! i = Some m → rs !! i = Some r →
            organize ms rs !! m = delivered r) ∧
  (∀ k, (∀ i, i < length rs → ms !! i ≠ Some k) → organize ms rs !! k = None) ∧
  size (organize ms rs) = length (filter (λ r, is_Some (delivered r)) rs).
Proof.
  induction rs as [|r' rs IH] using rev_ind; intros Hlen.
  { split_and!; [intros ??? _ Hr; by rewrite lookup_nil in Hr|done|done]. }
  rewrite length_app in Hlen. simpl in Hlen.
  destruct IH as (IH1 & IH2 & IH3); [lia|].
  destruct (lookup_lt_is_Some_2 ms (length rs)) as [m' Hm']; [lia|].
  assert (Hfresh : organize ms rs !! m' = None).
  { apply IH2. intros i Hi Him.
    pose proof (NoDup_lookup _ _ _ _ ms_NoDup Him Hm'). lia. }
  rewrite organize_snoc, organizeStep_delivered, Hm'. simpl.
  split_and!.
  - intros i m r Hm Hr.
    destruct (decide (i = length rs)) as [->|Hne].
    + rewrite lookup_snoc_length in Hr. injection Hr as ->.
      rewrite Hm' in Hm. injection Hm as ->.
      destruct (delivered r) as [p|]; [by rewrite lookup_insert_eq|done].
    + assert (i < length rs).
      { apply lookup_lt_Some in Hr. rewrite length_app in Hr. simpl in Hr. lia. }
      rewrite lookup_app_l in Hr by done.
      destruct (delivered r') as [p|]; [|by eapply IH1].
      rewrite lookup_insert_ne; [by eapply IH1|].
      intros ->. pose proof (NoDup_lookup _ _ _ _ ms_NoDup Hm Hm'). lia.
  - intros k Hk. rewrite length_app in Hk. simpl in Hk.
    assert (organize ms rs !! k = None) as Hnone.
    { apply IH2. intros i Hi. apply Hk. lia. }
    destruct (delivered r') as [p|]; [|done].
    rewrite lookup_insert_ne; [done|].
    intros <-. by apply (Hk (length rs)); [lia|].
  - rewrite filter_app, length_app, <- IH3.
    destruct (delivered r') as [p|] eqn:Hr'.
    + rewrite map_size_insert_None by done.
      rewrite filter_cons_True by (by rewrite Hr'). simpl. lia.
    + rewrite filter_cons_False by (rewrite Hr'; by intros [??]).
      simpl. lia.
Qed.

(** With one request per model, as [models.map(...)] sends them. *)
Lemma organize_per_model (f : string → PredictResult Pred) :
  let byModel := organize ms (f <$> ms) in
  (∀ m, m ∈ ms → byModel !! m = delivered (f m)) ∧
  (∀ k, k ∉ ms → byModel !! k = None) ∧
  size byModel = length (filter (λ r, is_Some (delivered r)) (f <$> ms)).
Proof.
  destruct (organize_spec (f <$> ms)) as (H1 & H2 & H3).
  { by rewrite length_fmap. }
  simpl. split_and!; [| |done].
  - intros m [i Hi]%list_elem_of_lookup.
    apply (H1 i m (f m) Hi). by rewrite list_lookup_fmap, Hi.
  - intros k Hk. apply H2. intros i _ Hi. apply Hk.
    apply list_elem_of_lookup. eauto.
Qed.

End organize.

Lemma models_NoDup : NoDup models.
Proof. by apply (bool_decide_unpack _); vm_compute. Qed.

(** The [forEach] over results that may be [null]. *)
Lemma organizeResults_snoc (ms : list string)
    (rs : list (option (PredictResult Pred))) r :
  organizeResults ms (rs ++ [r]) =
    organizeNext ms (organizeResults ms rs) (length rs, r).
Proof.
  unfold organizeResults. rewrite length_app. simpl. rewrite seq_app. simpl.
  rewrite zip_with_app by by rewrite length_seq.
  by rewrite foldl_app.
Qed.

Lemma organizeResults_objects (ms : list string)
    (rs : list (PredictResult Pred)) :
  organizeResults ms (Some <$> rs) = Some (organize ms rs).
Proof.
  induction rs as [|r rs IH] using rev_ind; [done|].
  rewrite fmap_app. simpl. rewrite organizeResults_snoc, IH, organize_snoc.
  by rewrite length_fmap.
Qed.

Lemma organizeResults_null (ms : list string)
    (rs : list (option (PredictResult Pred))) :
  None ∈ rs → organizeResults ms rs = None.
Proof.
  induction rs as [|r rs IH] using rev_ind; [by intros ?%elem_of_nil|].
  intros Hin. rewrite organizeResults_snoc. unfold organizeNext. simpl.
  apply elem_of_app in Hin as [Hin|Hin].
  - by rewrite IH.
  - apply list_elem_of_singleton in Hin as <-. by case_match.
Qed.

(** A selection whose three awaits all resolve, run without interleaving. *)
Lemma run_selection w stock historyData infoData responses :
  let id := length (calls w) in
  app (run w [Select stock;
              HistorySettled id (Resolved historyData);
              InfoSettled id (Resolved infoData);
              PredictionsSettled id responses]) =
  afterPredictions ((λ model, predictStock (responses model)) <$> models)
    (setStockInfo infoData (setStockData historyData
       (selectStart stock (app w)))).
Proof.
  simpl. unfold run. simpl.
  rewrite lookup_snoc_length. simpl.
  unfold setStage. simpl. rewrite insert_snoc_length, lookup_snoc_length. simpl.
  rewrite insert_snoc_length, lookup_snoc_length. by simpl.
Qed.

(** The body a reply is processed as. *)
Local Lemma predictStock_body (response : Settled (option (PredictResult Pred))) :
  hasBody response = true →
  ∃ body, predictStock response = Some body ∧
          delivered body = forecastOf response.
Proof.
  destruct response as [[body|]|message]; [eauto|done|eauto].
Qed.

(** When every reply has a body, the results are processed as objects. *)
Lemma afterPredictions_bodies (responses : string → Settled (option (PredictResult Pred))) s :
  (∀ model, model ∈ models → hasBody (responses model) = true) →
  ∃ byModel,
    organizeResults models ((λ model, predictStock (responses model)) <$> models)
      = Some byModel ∧
    (∀ model, model ∈ models → byModel !! model = forecastOf (responses model)) ∧
    (∀ k, k ∉ models → byModel !! k = None) ∧
    size byModel =
      length (filter (λ model, is_Some (forecastOf (responses model))) models).
Proof.
  intros Hbody.
  set (body := λ model,
         default {| success := false; data := None; error := None |}
                 (predictStock (responses model))).
  assert (Hb : ∀ model, model ∈ models →
            predictStock (responses model) = Some (body model) ∧
            delivered (body model) = forecastOf (responses model)).
  { intros model Hin.
    destruct (predictStock_body _ (Hbody model Hin)) as (b & Hb & Hd).
    subst body. simpl. by rewrite Hb. }
  assert (Hres : (λ model, predictStock (responses model)) <$> models
                 = Some <$> (body <$> models)).
  { rewrite <- list_fmap_compose. apply list_fmap_ext.
    intros i model Hi. simpl. apply Hb. apply list_elem_of_lookup. eauto. }
  destruct (organize_per_model models models_NoDup body) as (H1 & H2 & H3).
  exists (organize models (body <$> models)). split_and!.
  - by rewrite Hres, organizeResults_objects.
  - intros model Hin. rewrite (H1 model Hin). by apply Hb.
  - done.
  - rewrite H3. clear H1 H2 H3 Hres.
    assert (Hcount : ∀ ms, Forall (λ model, model ∈ models) ms →
              length (filter (λ r, is_Some (delivered r)) (body <$> ms)) =
              length (filter (λ model, is_Some (forecastOf (responses model)))
                             ms)).
    { intros ms Hall. induction Hall as [|model ms Hin _ IH]; [done|].
      destruct (Hb model Hin) as [_ Hd]. rewrite fmap_cons.
      destruct (decide (is_Some (delivered (body model)))) as [Hs|Hn].
      - rewrite !filter_cons_True; [|by rewrite <- Hd|done].
        simpl. by rewrite IH.
      - rewrite !filter_cons_False; [|by rewrite <- Hd|done]. done. }
    apply Hcount, Forall_forall. auto.
Qed.

(** C3 (as amended). When the forecasts of a selection settle and every
    reply that arrived has a body, the prediction map is replaced, whatever
    it held and whatever happened since the selection, by exactly what the
    providers delivered: one entry for each provider whose reply has
    [success] and [data.predictions], no entry for a provider that failed
    (a rejected request, [success: false], or no forecast in the reply),
    and no other key; the number of entries is the number of successful
    providers.  This completion sets the "no predictions" error when no
    provider succeeded and otherwise leaves the error as it was: when no
    error was pending, an error is shown afterwards if and only if no
    provider succeeded. *)
Theorem prediction_map_of_partial_failure w id c responses :
  calls w !! id = Some c →
  call_stage c = Some AwaitPredictions →
  (∀ model, model ∈ models → hasBody (responses model) = true) →
  let w' := step w (PredictionsSettled id responses) in
  let successes :=
    length (filter (λ model, is_Some (forecastOf (responses model))) models) in
  (∀ model, model ∈ models →
     predictionsMap (app w') !! model = forecastOf (responses model)) ∧
  (∀ model p err, model ∈ models →
     responses model =
       Resolved (Some {| success := true;
                         data := Some {| data_predictions := Some p |};
                         error := err |}) →
     predictionsMap (app w') !! model = Some p) ∧
  (∀ model message, model ∈ models → responses model = Rejected message →
     predictionsMap (app w') !! model = None) ∧
  (∀ model body, model ∈ models → responses model = Resolved (Some body) →
     success body = false → predictionsMap (app w') !! model = None) ∧
  (∀ k, k ∉ models → predictionsMap (app w') !! k = None) ∧
  size (predictionsMap (app w')) = successes ∧
  errorMsg (app w') =
    (if successes =? 0 then Some noPredictionsMessage else errorMsg (app w)) ∧
  (errorMsg (app w) = None →
   (is_Some (errorMsg (app w')) ↔ successes = 0)) ∧
  loading (app w') = false.
Proof.
  intros Hc Hst Hbody w' successes. subst w'. cbn [step].
  rewrite Hc, Hst. cbn [app].
  destruct (afterPredictions_bodies responses (app w) Hbody)
    as (byModel & Hres & H1 & H2 & H3).
  fold successes in H3.
  unfold afterPredictions. rewrite Hres. cbv zeta. rewrite H3.
  assert (Hmap : ∀ (b : bool) s1,
            predictionsMap (setLoading false
              (if b then setError (Some noPredictionsMessage) s1 else s1))
            = predictionsMap s1) by (by intros []).
  assert (Herr : ∀ (b : bool) s1,
            errorMsg (setLoading false
              (if b then setError (Some noPredictionsMessage) s1 else s1))
            = if b then Some noPredictionsMessage else errorMsg s1)
    by (by intros []).
  assert (Hload : ∀ (b : bool) s1,
            loading (setLoading false
              (if b then setError (Some noPredictionsMessage) s1 else s1))
            = false) by (by intros []).
  rewrite Hmap, Herr, Hload. cbn [predictionsMap errorMsg setPredictions].
  split_and!; try done.
  - intros model p err Hin Hr. by rewrite (H1 model Hin), Hr.
  - intros model message Hin Hr. by rewrite (H1 model Hin), Hr.
  - intros model body Hin Hr Hs. rewrite (H1 model Hin), Hr. simpl.
    unfold delivered. by rewrite Hs.
  - intros Hnone. rewrite Hnone.
    destruct (Nat.eqb_spec successes 0) as [Hz|Hnz].
    + split; [done|]. intros _. eauto.
    + split; [|done]. intros [? [=]].
Qed.

End AppFacts.

End AppFacts.

(** * Properties of the chart assembly *)

Module ChartFacts.

Import JsArrayFacts.
Import StockChart.
Import Feed (Tick).

Section ChartFacts.

Context {E Pred : Type}.

Abbreviation heap := (list (list E)).
Abbreviation Props := (Props E Pred).

Implicit Types (h pre : heap) (p : Props) (s : ChartState).
Implicit Types (a b ds cs : list E) (rt : list (Tick E Pred)).

(** ** The store operations *)

Lemma bind_run {A B : Type} (m : M E A) (k : A → M E B) h x h' :
  m h = Some (x, h') → bind m k h = k x h'.
Proof. unfold bind. by intros ->. Qed.

Lemma spread_run l a h :
  h !! l = Some a → spread l h = Some (length h, h ++ [a]).
Proof. intros Hl. unfold spread, bind, read, alloc. by rewrite Hl. Qed.

Lemma slice_run l start a h :
  h !! l = Some a →
  slice l start h = Some (length h, h ++ [JsArray.slice start a]).
Proof. intros Hl. unfold slice, bind, read, alloc. by rewrite Hl. Qed.

Lemma length_of_run l a h :
  h !! l = Some a → length_of l h = Some (Z.of_nat (length a), h).
Proof. intros Hl. unfold length_of, bind, read, ret. by rewrite Hl. Qed.

(** The two arrays under construction are the last two of the store. *)
Lemma trailing_run n pre a b :
  trailing n (length pre) (S (length pre)) (pre ++ [a; b]) =
  Some ((length pre + 2, length pre + 3),
        (pre ++ [a; b]) ++
          [JsArray.slice (Z.of_nat (length a) - n) a;
           JsArray.slice (Z.of_nat (length a) - n) b]).
Proof.
  assert (Ha : (pre ++ [a; b]) !! length pre = Some a)
    by by apply list_lookup_middle.
  assert (Hb : ∀ t, ((pre ++ [a; b]) ++ t) !! S (length pre) = Some b).
  { intros t. rewrite <- app_assoc. rewrite lookup_app_r by lia.
    by replace (S (length pre) - length pre) with 1 by lia. }
  unfold trailing.
  rewrite (bind_run _ _ _ _ _ (length_of_run _ _ _ Ha)).
  rewrite (bind_run _ _ _ _ _ (slice_run _ _ _ _ Ha)).
  rewrite (bind_run _ _ _ _ _ (slice_run _ _ _ _ (Hb _))).
  unfold ret. rewrite !length_app. simpl.
  rewrite <- !app_assoc. simpl.
  do 3 f_equal; lia.
Qed.

Lemma forEach_push_run rt pre a b :
  forEach rt (λ data,
      bind (push (length pre) (Feed.timestamp data))
           (λ _, push (S (length pre)) (Feed.price data)))
    (pre ++ [a; b]) =
  Some (tt, pre ++ [a ++ (Feed.timestamp <$> rt); b ++ (Feed.price <$> rt)]).
Proof.
  revert a b. induction rt as [|data rt IH]; intros a b; simpl.
  { by rewrite !app_nil_r. }
  unfold bind at 1. unfold bind at 1. unfold push at 1.
  rewrite list_lookup_middle by done.
  rewrite insert_app_r_alt by lia. rewrite Nat.sub_diag. simpl.
  unfold push at 1. rewrite lookup_app_r by lia.
  replace (S (length pre) - length pre) with 1 by lia. simpl.
  rewrite insert_app_r_alt by lia.
  replace (S (length pre) - length pre) with 1 by lia. simpl.
  rewrite IH. by rewrite <- !app_assoc.
Qed.

(** ** One invocation of [prepareChartData] *)

(** Whatever the range, the historical part is a suffix. *)
Lemma lookback_drop {A : Type} (range : string) (n : nat) (a : list A) :
  ∃ k, k ≤ length a ∧ lookback range n a = drop k a.
Proof.
  unfold lookback.
  destruct (String.eqb _ "1m"); [apply slice_drop|].
  destruct (String.eqb _ "3m"); [apply slice_drop|].
  destruct (String.eqb _ "6m"); [apply slice_drop|].
  exists 0. split; [lia|done].
Qed.

(** The time-range filter, run on the two fresh copies: afterwards the two
    arrays under construction are again the last two of the store, and hold
    the lookback slices; everything allocated before is still in place. *)
Lemma filter_run range h ds cs :
  ∃ mid,
    (if String.eqb range "1m"
     then trailing 30 (length h) (S (length h))
     else if String.eqb range "3m"
     then trailing 90 (length h) (S (length h))
     else if String.eqb range "6m"
     then trailing 180 (length h) (S (length h))
     else ret (length h, S (length h))) (h ++ [ds; cs]) =
    Some ((length (h ++ mid), S (length (h ++ mid))),
          (h ++ mid) ++ [lookback range (length ds) ds;
                         lookback range (length ds) cs]).
Proof.
  unfold lookback.
  destruct (String.eqb range "1m");
    [|destruct (String.eqb range "3m");
      [|destruct (String.eqb range "6m")]].
  1-3: exists [ds; cs]; rewrite trailing_run, length_app; simpl;
       do 3 f_equal; lia.
  exists []. unfold ret. by rewrite !app_nil_r.
Qed.

(** The [forEach] over the live ticks, guarded as in the source. *)
Lemma live_run p pre a b :
  match realTimeData p with
  | Some rt =>
      if 0 <? length rt then
        forEach rt (λ data,
          bind (push (length pre) (Feed.timestamp data))
               (λ _, push (S (length pre)) (Feed.price data)))
      else ret tt
  | None => ret tt
  end (pre ++ [a; b]) =
  Some (tt, pre ++ [a ++ (Feed.timestamp <$> liveTicks p);
                    b ++ (Feed.price <$> liveTicks p)]).
Proof.
  unfold liveTicks. destruct (realTimeData p) as [rt|]; simpl.
  - destruct rt as [|data rt].
    + simpl. unfold ret. by rewrite !app_nil_r.
    + replace (0 <? length (data :: rt)) with true by done.
      apply forEach_push_run.
  - unfold ret. by rewrite !app_nil_r.
Qed.

(** The store after an invocation extends the store before it, and the
    returned object shows the assembly of the input arrays. *)
Lemma prepareChartData_run p s h hd ds cs :
  historicalData p = Some hd →
  h !! dates hd = Some ds → h !! close hd = Some cs →
  ∃ cd fresh,
    prepareChartData p s h = Some (Some cd, h ++ fresh) ∧
    length h ≤ labels cd ∧
    (h ++ fresh) !! labels cd =
      Some (lookback (timeRange s) (length ds) ds
              ++ (Feed.timestamp <$> liveTicks p)) ∧
    (∃ fp, length h ≤ fp ∧
       (h ++ fresh) !! fp =
         Some (lookback (timeRange s) (length ds) cs
                 ++ (Feed.price <$> liveTicks p)) ∧
       datasets cd =
         {| label := "Historical Price"; dataset_data := fp;
            xAxisID := None |}
         :: match (if showPredictions s then selectedPrediction p s
                   else None) with
            | Some pd => predictionDatasets (selectedModel s) pd
            | None => []
            end) ∧
    match selectedPrediction p s with
    | Some pd => predictionDates cd = prediction_dates pd
    | None => (h ++ fresh) !! predictionDates cd = Some []
    end.
Proof.
  intros Hhd Hds Hcs. unfold prepareChartData. rewrite Hhd.
  rewrite (bind_run _ _ _ _ _ (spread_run _ _ _ Hds)).
  assert (Hcs' : (h ++ [ds]) !! close hd = Some cs)
    by by apply lookup_app_l_Some.
  rewrite (bind_run _ _ _ _ _ (spread_run _ _ _ Hcs')).
  rewrite length_app. simpl. rewrite Nat.add_1_r, <- app_assoc. simpl.
  destruct (filter_run (timeRange s) h ds cs) as [mid Hfilter].
  rewrite (bind_run _ _ _ _ _ Hfilter).
  set (pre := h ++ mid).
  set (L := lookback (timeRange s) (length ds) ds).
  set (P := lookback (timeRange s) (length ds) cs).
  rewrite (bind_run _ _ _ _ _ (live_run p pre L P)).
  set (L' := L ++ _). set (P' := P ++ _).
  assert (HL : ∀ t, (h ++ mid ++ [L'; P'] ++ t) !! length pre = Some L').
  { intros t. rewrite app_assoc. fold pre. by apply list_lookup_middle. }
  assert (HP : ∀ t, (h ++ mid ++ [L'; P'] ++ t) !! S (length pre) = Some P').
  { intros t. rewrite app_assoc. fold pre.
    rewrite lookup_app_r by lia.
    by replace (S (length pre) - length pre) with 1 by lia. }
  assert (Hpre : length h ≤ length pre)
    by (subst pre; rewrite length_app; lia).
  assert (Hheap1 : pre ++ [L'; P'] = h ++ mid ++ [L'; P'])
    by (by subst pre; rewrite <- app_assoc).
  assert (Hheap2 : (pre ++ [L'; P']) ++ [[]] = h ++ mid ++ [L'; P'; []])
    by (by subst pre; rewrite <- !app_assoc).
  destruct (selectedPrediction p s) as [pd|] eqn:Hsel.
  - eexists _, (mid ++ [L'; P']). unfold bind, ret. simpl.
    split_and!; [by rewrite Hheap1|done|apply (HL [])| |done].
    exists (S (length pre)). split_and!; [lia|apply (HP [])|].
    by destruct (showPredictions s).
  - eexists _, (mid ++ [L'; P'; []]). unfold bind, alloc, ret. simpl.
    split_and!; [by rewrite Hheap2|done|apply (HL [[]])| |].
    + exists (S (length pre)). split_and!; [lia|apply (HP [[]])|].
      by destruct (showPredictions s).
    + simpl. rewrite <- Hheap2. apply lookup_snoc_length.
Qed.

Lemma allocated_historical h p s hd :
  allocated h p s → historicalData p = Some hd →
  ∃ ds cs, h !! dates hd = Some ds ∧ h !! close hd = Some cs.
Proof.
  intros [Hh _] Hhd. destruct (Hh hd Hhd) as [Hd Hc].
  apply lookup_lt_is_Some_2 in Hd as [ds Hds].
  apply lookup_lt_is_Some_2 in Hc as [cs Hcs]. eauto.
Qed.

(** An invocation returns; the store is only extended, and what the
    returned object shows is the assembly of the input arrays. *)
Lemma prepareChartData_view p s h :
  allocated h p s →
  ∃ out fresh,
    prepareChartData p s h = Some (out, h ++ fresh) ∧
    view (h ++ fresh) <$> out = assembled h p s.
Proof.
  intros Halloc.
  destruct (historicalData p) as [hd|] eqn:Hhd; last first.
  { exists None, []. unfold prepareChartData, assembled. rewrite Hhd.
    unfold ret. by rewrite app_nil_r. }
  destruct (allocated_historical _ _ _ _ Halloc Hhd) as (ds & cs & Hds & Hcs).
  destruct (prepareChartData_run p s h hd ds cs Hhd Hds Hcs)
    as (cd & fresh & Heq & _ & Hlabels & (fp & _ & Hfp & Hdatasets) & Hpd).
  exists (Some cd), fresh. split; [done|].
  unfold assembled. rewrite Hhd, Hds, Hcs. simpl. f_equal.
  unfold view. rewrite Hlabels, Hdatasets. simpl. rewrite Hfp.
  assert (Hold : ∀ l, l < length h → (h ++ fresh) !! l = h !! l)
    by (intros l Hl; by apply lookup_app_l).
  destruct Halloc as [_ Halloc].
  f_equal.
  - f_equal. destruct (selectedPrediction p s) as [pd|] eqn:Hsel.
    + destruct (Halloc pd eq_refl) as (_ & ? & ? & ?).
      destruct (showPredictions s); [|done]. simpl.
      by rewrite !Hold.
    + by destruct (showPredictions s).
  - destruct (selectedPrediction p s) as [pd|] eqn:Hsel; [|done].
    destruct (Halloc pd eq_refl) as (? & _). rewrite Hpd. by apply Hold.
Qed.

Lemma allocated_extend h fresh p s :
  allocated h p s → allocated (h ++ fresh) p s.
Proof.
  intros [Hh Hp]. split.
  - intros hd Hhd. destruct (Hh hd Hhd). rewrite length_app. lia.
  - intros pd Hpd. destruct (Hp pd Hpd) as (? & ? & ? & ?).
    rewrite length_app. lia.
Qed.

(** The assembly reads the two historical arrays and the arrays of the
    selected forecast; extending the store does not change it. *)
Lemma assembled_extend h fresh p s :
  allocated h p s → assembled (h ++ fresh) p s = assembled h p s.
Proof.
  intros Halloc. unfold assembled.
  destruct (historicalData p) as [hd|] eqn:Hhd; [|done].
  destruct (allocated_historical _ _ _ _ Halloc Hhd) as (ds & cs & Hds & Hcs).
  rewrite (lookup_app_l_Some _ _ _ _ Hds), (lookup_app_l_Some _ _ _ _ Hcs).
  rewrite Hds, Hcs.
  assert (Hold : ∀ l, l < length h → (h ++ fresh) !! l = h !! l)
    by (intros l Hl; by apply lookup_app_l).
  destruct Halloc as [_ Halloc].
  destruct (selectedPrediction p s) as [pd|] eqn:Hsel;
    [|by destruct (showPredictions s)].
  destruct (Halloc pd eq_refl) as (? & ? & ? & ?).
  destruct (showPredictions s); simpl; by rewrite !Hold.
Qed.

(** C6. [prepareChartData] is deterministic and leaves its inputs alone:
    an invocation returns and changes no array that existed before it (the
    historical arrays, the forecast arrays, and any other), and a second
    invocation with the same props and state, run on the store the first
    one left, returns an object that shows exactly what the first one
    shows, again without changing any existing array. *)
Theorem prepareChartData_deterministic_and_pure p s h :
  allocated h p s →
  ∃ out1 h1,
    prepareChartData p s h = Some (out1, h1) ∧
    (∀ l a, h !! l = Some a → h1 !! l = Some a) ∧
    ∃ out2 h2,
      prepareChartData p s h1 = Some (out2, h2) ∧
      view h2 <$> out2 = view h1 <$> out1 ∧
      (∀ l a, h1 !! l = Some a → h2 !! l = Some a).
Proof.
  intros Halloc.
  destruct (prepareChartData_view p s h Halloc) as (out1 & fresh & Hrun1 & Hv1).
  pose proof (allocated_extend _ fresh _ _ Halloc) as Halloc1.
  destruct (prepareChartData_view p s _ Halloc1)
    as (out2 & fresh2 & Hrun2 & Hv2).
  exists out1, (h ++ fresh). split_and!; [done|intros l a; apply lookup_app_l_Some|].
  exists out2, ((h ++ fresh) ++ fresh2).
  split_and!; [done| |intros l a; apply lookup_app_l_Some].
  rewrite Hv1, Hv2. by apply assembled_extend.
Qed.

(** C7. All buffered live ticks are appended, in arrival order, after the
    historical slice, on the labels and on the primary price series alike;
    the time range decides the historical slice only: the tail of the
    labels after that slice is the timestamps of all live ticks, whatever
    the range. *)
Theorem live_ticks_follow_historical_slice p s h hd ds cs rt :
  historicalData p = Some hd →
  h !! dates hd = Some ds → h !! close hd = Some cs →
  realTimeData p = Some rt → rt ≠ [] →
  ∃ cd h1,
    prepareChartData p s h = Some (Some cd, h1) ∧
    h1 !! labels cd =
      Some (lookback (timeRange s) (length ds) ds ++ (Feed.timestamp <$> rt)) ∧
    primaryPrices h1 cd =
      Some (lookback (timeRange s) (length ds) cs ++ (Feed.price <$> rt)) ∧
    (∃ k, lookback (timeRange s) (length ds) ds = drop k ds) ∧
    (∀ labels1, h1 !! labels cd = Some labels1 →
       drop (length (lookback (timeRange s) (length ds) ds)) labels1
         = Feed.timestamp <$> rt).
Proof.
  intros Hhd Hds Hcs Hrt _.
  destruct (prepareChartData_run p s h hd ds cs Hhd Hds Hcs)
    as (cd & fresh & Heq & _ & Hlabels & (fp & _ & Hfp & Hdatasets) & _).
  unfold liveTicks in *. rewrite Hrt in *. simpl in *.
  exists cd, (h ++ fresh). split_and!; [done|done| | |].
  - unfold primaryPrices. by rewrite Hdatasets.
  - destruct (lookback_drop (timeRange s) (length ds) ds) as (k & _ & Hk).
    eauto.
  - intros labels1. rewrite Hlabels. intros [= <-].
    by rewrite drop_app_length.
Qed.

(** ** Order of the dates *)

Lemma strictly_increasing_drop (lt : E → E → Prop) k (l : list E) :
  strictly_increasing lt l → strictly_increasing lt (drop k l).
Proof.
  intros Hl i j x y Hij Hi Hj. rewrite lookup_drop in Hi, Hj.
  apply (Hl (k + i) (k + j)); [lia|done..].
Qed.

Lemma last_drop_Some {A : Type} k (l : list A) x :
  last (drop k l) = Some x → last l = Some x.
Proof.
  intros Hx. rewrite <- (take_drop k l). rewrite last_app. by rewrite Hx.
Qed.

(** C5 (as amended). The labels are the historical slice followed by the
    tick timestamps, neither sorted nor filtered: they are strictly
    increasing whenever the historical dates followed by the tick
    timestamps are.  The forecast dates are returned as the prediction map
    holds them: they all exceed the last label whenever they all exceed the
    last of the historical dates and tick timestamps. *)
Theorem primary_dates_keep_input_order (lt : E → E → Prop) p s h hd ds cs :
  historicalData p = Some hd →
  h !! dates hd = Some ds → h !! close hd = Some cs →
  strictly_increasing lt (ds ++ (Feed.timestamp <$> liveTicks p)) →
  ∃ cd h1 primary,
    prepareChartData p s h = Some (Some cd, h1) ∧
    h1 !! labels cd = Some primary ∧
    strictly_increasing lt primary ∧
    ∀ pd fds,
      selectedPrediction p s = Some pd →
      h !! prediction_dates pd = Some fds →
      h1 !! predictionDates cd = Some fds ∧
      ((∀ x f, last (ds ++ (Feed.timestamp <$> liveTicks p)) = Some x →
               f ∈ fds → lt x f) →
       ∀ x f, last primary = Some x → f ∈ fds → lt x f).
Proof.
  intros Hhd Hds Hcs Hsorted.
  destruct (prepareChartData_run p s h hd ds cs Hhd Hds Hcs)
    as (cd & fresh & Heq & _ & Hlabels & _ & Hpd).
  destruct (lookback_drop (timeRange s) (length ds) ds) as (k & Hk & Hlb).
  rewrite Hlb, <- drop_app_le in Hlabels by done.
  eexists cd, (h ++ fresh), _. split_and!; [done|done| |].
  - by apply strictly_increasing_drop.
  - intros pd fds Hsel Hfds. rewrite Hsel in Hpd. rewrite Hpd. split.
    + by apply lookup_app_l_Some.
    + intros Hin x f Hx. apply Hin. by eapply last_drop_Some.
Qed.

(** ** The time-range filter *)

(** A window of [n] entries on an array that has them: the last [n]. *)
Lemma slice_trailing_long {A : Type} (n : nat) (a : list A) :
  n ≤ length a →
  JsArray.slice (Z.of_nat (length a) - Z.of_nat n) a = drop (length a - n) a ∧
  length (JsArray.slice (Z.of_nat (length a) - Z.of_nat n) a) = n.
Proof.
  intros Hn. rewrite slice_nonneg by lia.
  replace (Z.to_nat (Z.of_nat (length a) - Z.of_nat n)) with (length a - n)
    by lia.
  split; [done|]. rewrite length_drop. lia.
Qed.

(** On a shorter array the cutoff is negative and [slice] counts it from
    the end: what is left is the last [n - length a] entries, and the whole
    array only when it has at most [n / 2] entries. *)
Lemma slice_trailing_short {A : Type} (n : nat) (a : list A) :
  length a < n →
  JsArray.slice (Z.of_nat (length a) - Z.of_nat n) a
    = drop (2 * length a - n) a.
Proof.
  intros Hn. rewrite slice_neg by lia. f_equal. lia.
Qed.

Lemma lookback_1m {A : Type} (a : list A) :
  lookback "1m" (length a) a =
    if decide (30 ≤ length a) then drop (length a - 30) a
    else drop (2 * length a - 30) a.
Proof.
  unfold lookback. simpl. case_decide.
  - by apply (slice_trailing_long 30).
  - apply (slice_trailing_short 30). lia.
Qed.

Lemma lookback_3m {A : Type} (a : list A) :
  lookback "3m" (length a) a =
    if decide (90 ≤ length a) then drop (length a - 90) a
    else drop (2 * length a - 90) a.
Proof.
  unfold lookback. simpl. case_decide.
  - by apply (slice_trailing_long 90).
  - apply (slice_trailing_short 90). lia.
Qed.

Lemma lookback_6m {A : Type} (a : list A) :
  lookback "6m" (length a) a =
    if decide (180 ≤ length a) then drop (length a - 180) a
    else drop (2 * length a - 180) a.
Proof.
  unfold lookback. simpl. case_decide.
  - by apply (slice_trailing_long 180).
  - apply (slice_trailing_short 180). lia.
Qed.

Lemma lookback_1y {A : Type} n (a : list A) : lookback "1y" n a = a.
Proof. done. Qed.

End ChartFacts.

End ChartFacts.

(** * The scenarios *)

Module ScenarioFacts.

Import api App StockChart Scenario AppFacts ChartFacts.
Import Feed (Tick, mkTick).

(** C4. A series of 29 trading days shown with the one-month range: the
    cutoff [29 - 30] is negative, [slice(-1)] keeps the last entry, and the
    chart shows one date and one price instead of the 29 there are. *)
Theorem one_month_range_cuts_short_series :
  length <$> (shortHeap !! 0) = Some 29 ∧
  (render shortProps oneMonth shortHeap ≫= view_labels) = Some [29%Z] ∧
  (render shortProps oneMonth shortHeap ≫= view_labels)
    ≠ shortHeap !! 0.
Proof. split_and!; [done|by vm_compute|by vm_compute]. Qed.

(** A series of 252 trading days: the last 30 with the one-month range,
    all 252 with the initial one-year range. *)
Lemma year_series_ranges :
  (render shortProps oneMonth yearHeap ≫= view_labels)
    = Some ((λ i, Z.of_nat i) <$> seq 223 30) ∧
  (render shortProps initialChartState yearHeap ≫= view_labels)
    = yearHeap !! 0.
Proof. split; by vm_compute. Qed.

(** ** Sessions *)

(** C1, counterexample. The forecasts requested for [aapl] are still
    outstanding when the user selects [msft]; when they arrive, the
    continuation of the first invocation writes them into the prediction
    map of the [msft] session. *)
Lemma stale_forecasts_reach_new_selection :
  selectedStock (app switchedToMsft) = Some msft ∧
  call_stock <$> calls switchedToMsft !! 0 = Some aapl ∧
  PostPredict "AAPL" "arima" 7 ∈ sentBy 0 switchedToMsft ∧
  predictionsMap (app switchedToMsft) !! "arima" = None ∧
  predictionsMap
    (app (step switchedToMsft (PredictionsSettled 0 (λ _, forecastReply 7))))
    !! "arima" = Some 7.
Proof.
  split_and!; [done|done| |done|by vm_compute].
  apply (bool_decide_unpack _). by vm_compute.
Qed.

(** C1, instance: after the switch to [msft], a late tick for [aapl], the
    late forecasts for [aapl] and a tick for [msft] arrive; the tick in the
    buffer is the one for [msft]. *)
Lemma buffer_holds_only_selected_symbol_witness :
  Feed.symbol (tick "MSFT" 2) = stock_symbol msft.
Proof.
  apply (buffer_holds_only_selected_symbol
           (run initialWorld aaplLoading) msft
           [StockUpdate (tick "AAPL" 1);
            PredictionsSettled 0 (λ _, forecastReply 7);
            StockUpdate (tick "MSFT" 2)]
           (tick "MSFT" 2)).
  - reflexivity.
  - vm_compute. constructor.
Defined.

(** C2, instance: 150 ticks pushed for the selected instrument leave ticks
    51 to 150. *)
Lemma live_buffer_keeps_last_100_witness :
  let buf := App.realTimeData (app (run aaplSelected (StockUpdate <$> ticks150))) in
  length buf = 100 ∧ buf = drop 50 ticks150.
Proof.
  apply (live_buffer_keeps_last_100 aaplSelected aapl ticks150).
  - reflexivity.
  - reflexivity.
  - apply (bool_decide_unpack _). vm_compute. reflexivity.
  - vm_compute. lia.
  - reflexivity.
  - vm_compute. lia.
Defined.

(** Two of the three providers fail: one entry, no error. *)
Lemma two_of_three_providers_fail :
  let w := run initialWorld
             (aaplLoading ++
              [PredictionsSettled 0
                 (λ model, if String.eqb model "prophet" then forecastReply 7
                           else Rejected "Network Error")]) in
  size (predictionsMap (app w)) = 1 ∧
  predictionsMap (app w) !! "prophet" = Some 7 ∧
  errorMsg (app w) = None ∧ loading (app w) = false.
Proof. by vm_compute. Qed.

(** All three providers fail: an empty map and the error message. *)
Lemma all_providers_fail :
  let w := run initialWorld
             (aaplLoading ++
              [PredictionsSettled 0 (λ _, Rejected "Network Error")]) in
  size (predictionsMap (app w)) = 0 ∧
  errorMsg (app w) = Some noPredictionsMessage ∧ loading (app w) = false.
Proof. by vm_compute. Qed.

(** C8, counterexample. The user goes from [aapl] to [msft] and back; the
    third invocation has sent nothing but its history request, and the only
    subscription to [aapl] was made by the first.  A tick of that earlier
    subscription arrives: it carries the selected symbol and is appended. *)
Lemma tick_of_earlier_selection_is_appended :
  length (calls backToAapl) = 3 ∧
  call_stage <$> calls backToAapl !! 2 = Some (Some AwaitHistory) ∧
  sentBy 2 backToAapl = [GetStockHistory "AAPL" "1y" "1d"] ∧
  (fst <$> filter (λ ir, ir.2 = TrackStock "AAPL") (outbox backToAapl)) = [0] ∧
  App.realTimeData (app backToAapl) = [] ∧
  App.realTimeData (app (step backToAapl (StockUpdate (tick "AAPL" 5))))
    = [tick "AAPL" 5].
Proof. split_and!; by vm_compute. Qed.

(** C8, instance: a tick for [msft] while [aapl] is selected. *)
Lemma foreign_tick_discarded_witness :
  step aaplSelected (StockUpdate (tick "MSFT" 1)) = aaplSelected.
Proof.
  apply (foreign_tick_discarded aaplSelected (tick "MSFT" 1)).
  intros sel Hsel. vm_compute in Hsel. injection Hsel as <-.
  simpl. discriminate.
Defined.

(** C9, instance: the map holds an ML and an ARIMA forecast; a tick with
    a new ARIMA forecast replaces the ARIMA entry and keeps the ML
    entry. *)
Lemma merge_overwrites_only_that_model_witness :
  predictionsMap (app withTwoForecasts) !! "ml" = Some 4 ∧
  predictionsMap (app withTwoForecasts) !! "arima" = Some 1 ∧
  predictionsMap (stock_update tickWithForecast (app withTwoForecasts)) !! "ml"
    = Some 4 ∧
  predictionsMap (stock_update tickWithForecast (app withTwoForecasts))
    !! "arima" = Some 9.
Proof.
  destruct (merge_overwrites_only_that_model
              (app withTwoForecasts) tickWithForecast "arima" 9)
    as (Hother & Hkey & _).
  - reflexivity.
  - split_and!.
    + reflexivity.
    + reflexivity.
    + rewrite (Hother "ml") by discriminate. reflexivity.
    + apply Hkey. reflexivity.
Defined.

(** C3, counterexample. Both [aapl] and [msft] wait for their forecasts.
    The stale replies for [aapl] arrive, all failed, and set the error;
    then the replies for [msft] arrive, one provider succeeding: the map has
    its one entry and the error is still shown. *)
Lemma error_shown_although_a_provider_succeeded :
  let w := run bothAwaitingForecasts
             [PredictionsSettled 0 allRejected;
              PredictionsSettled 1 prophetOnly] in
  selectedStock (app w) = Some msft ∧
  size (predictionsMap (app w)) = 1 ∧
  predictionsMap (app w) !! "prophet" = Some 7 ∧
  errorMsg (app w) = Some noPredictionsMessage.
Proof. by vm_compute. Qed.

(** A reply without body: the [forEach] throws on it, the forecasts of the
    two providers that succeeded are not stored, and the fetch error is
    shown. *)
Lemma reply_without_body_loses_the_forecasts :
  let w := run initialWorld
             (aaplLoading ++ [PredictionsSettled 0 mlWithoutBody]) in
  size (predictionsMap (app w)) = 0 ∧
  errorMsg (app w) = Some fetchFailedMessage ∧ loading (app w) = false.
Proof. by vm_compute. Qed.

(** C3, instance: of the three providers for [aapl] only Prophet succeeds,
    with no error pending. *)
Lemma prediction_map_of_partial_failure_witness :
  let w' := step (run initialWorld aaplLoading)
                 (PredictionsSettled 0 prophetOnly) in
  predictionsMap (app w') !! "prophet" = Some 7 ∧
  predictionsMap (app w') !! "arima" = None ∧
  size (predictionsMap (app w')) = 1 ∧
  errorMsg (app w') = None.
Proof.
  destruct (prediction_map_of_partial_failure
              (run initialWorld aaplLoading) 0 firstCall prophetOnly)
    as (Hmap & _ & _ & _ & _ & Hsize & Herr & _).
  - reflexivity.
  - reflexivity.
  - intros model _. unfold prophetOnly. destruct (String.eqb model "prophet");
      reflexivity.
  - split_and!.
    + rewrite (Hmap "prophet") by (apply (bool_decide_unpack _); vm_compute;
                                   reflexivity).
      reflexivity.
    + rewrite (Hmap "arima") by (apply (bool_decide_unpack _); vm_compute;
                                 reflexivity).
      reflexivity.
    + rewrite Hsize. vm_compute. reflexivity.
    + rewrite Herr. vm_compute. reflexivity.
Defined.

(** ** Charts *)

(** C5, counterexample. Historical dates 1, 2, 3 (increasing), a forecast
    for days 4 and 5 (after the last historical date), and the tick of
    day 4 delivered twice: the labels repeat day 4, and the first forecast
    date does not exceed the last label. *)
Lemma redelivered_tick_breaks_date_order :
  chartHeap !! 0 = Some [1; 2; 3]%Z ∧
  (render redeliveredProps initialChartState chartHeap ≫= view_labels)
    = Some [1; 2; 3; 4; 4]%Z ∧
  (render redeliveredProps initialChartState chartHeap ≫= view_predictionDates)
    = Some [4; 5]%Z ∧
  ¬ strictly_increasing Z.lt [1; 2; 3; 4; 4]%Z ∧
  ¬ (4 < 4)%Z.
Proof.
  split_and!; [done|by vm_compute|by vm_compute| |lia].
  intros H. specialize (H 3 4 4%Z 4%Z). simpl in H.
  specialize (H ltac:(lia) eq_refl eq_refl). lia.
Qed.

(** C5, instance: one tick of day 4 and a forecast from day 5 on. *)
Lemma primary_dates_keep_input_order_witness :
  ∃ cd h1 primary,
    prepareChartData orderedProps initialChartState orderedHeap
      = Some (Some cd, h1) ∧
    h1 !! labels cd = Some primary ∧
    strictly_increasing Z.lt primary.
Proof.
  destruct (primary_dates_keep_input_order Z.lt
              orderedProps initialChartState orderedHeap
              {| dates := 0; close := 1 |} [1; 2; 3]%Z [101; 102; 103]%Z)
    as (cd & h1 & primary & Hrun & Hlabels & Hsorted & _).
  - reflexivity.
  - reflexivity.
  - reflexivity.
  - intros i j x y Hij Hi Hj.
    destruct i as [|[|[|[|i]]]]; destruct j as [|[|[|[|j]]]];
      simpl in Hi, Hj; simplify_eq; lia.
  - exists cd, h1, primary. auto.
Defined.

(** C6, instance: the chart of the redelivered tick, assembled twice. *)
Lemma prepareChartData_deterministic_and_pure_witness :
  ∃ out1 h1,
    prepareChartData redeliveredProps initialChartState chartHeap
      = Some (out1, h1) ∧
    (∀ l a, chartHeap !! l = Some a → h1 !! l = Some a) ∧
    ∃ out2 h2,
      prepareChartData redeliveredProps initialChartState h1
        = Some (out2, h2) ∧
      view h2 <$> out2 = view h1 <$> out1 ∧
      (∀ l a, h1 !! l = Some a → h2 !! l = Some a).
Proof.
  apply (prepareChartData_deterministic_and_pure
           redeliveredProps initialChartState chartHeap).
  split.
  - intros hd Hhd. simpl in Hhd. injection Hhd as <-. simpl. lia.
  - intros pd Hpd. vm_compute in Hpd. injection Hpd as <-. simpl. lia.
Defined.

(** C7, instance: two live ticks after three historical days, with the
    one-month range. *)
Lemma live_ticks_follow_historical_slice_witness :
  ∃ cd h1,
    prepareChartData redeliveredProps oneMonth chartHeap = Some (Some cd, h1) ∧
    h1 !! labels cd = Some ([1; 2; 3] ++ [4; 4])%Z ∧
    primaryPrices h1 cd = Some ([101; 102; 103] ++ [104; 104])%Z.
Proof.
  destruct (live_ticks_follow_historical_slice
              redeliveredProps oneMonth chartHeap
              {| dates := 0; close := 1 |} [1; 2; 3]%Z [101; 102; 103]%Z
              [tick "AAPL" 4; tick "AAPL" 4])
    as (cd & h1 & Hrun & Hlabels & Hprices & _).
  - reflexivity.
  - reflexivity.
  - reflexivity.
  - reflexivity.
  - discriminate.
  - exists cd, h1. auto.
Defined.

End ScenarioFacts.

(** * Further properties of the session *)

Module SessionFacts.

Import JsArrayFacts.
Import api App AppFacts.
Import Feed (Tick).

Section SessionFacts.

Context {Hist Info Pred E : Type}.

Abbreviation State := (State Hist Info Pred E).
Abbreviation World := (World Hist Info Pred E).
Abbreviation Event := (Event Hist Info Pred E).

Implicit Types (s : State) (w : World) (e : Event) (es : list Event).
Implicit Types (data d : Tick E Pred) (c : Call).

(** ** The requests of an invocation *)

Lemma sentBy_outbox id (a : State) cs w :
  sentBy id (mkWorld a cs (outbox w)) = sentBy id w.
Proof. done. Qed.

Lemma sentBy_send id id' (a : State) cs out rs :
  sentBy id (mkWorld a cs (out ++ send id' rs)) =
  sentBy id (mkWorld a cs out) ++ (if decide (id' = id) then rs else []).
Proof.
  unfold sentBy. simpl. rewrite filter_app, fmap_app. f_equal.
  unfold send. induction rs as [|r rs IH]; simpl.
  { by case_decide. }
  destruct (decide (id' = id)) as [->|Hne].
  - rewrite filter_cons_True by done. simpl. by f_equal.
  - rewrite filter_cons_False by done. done.
Qed.

Lemma sentBy_fresh w id :
  (∀ ir, ir ∈ outbox w → ir.1 < length (calls w)) →
  length (calls w) ≤ id → sentBy id w = [].
Proof.
  intros Hout Hid. unfold sentBy.
  induction (outbox w) as [|ir out IH]; [done|].
  rewrite filter_cons_False.
  - apply IH. intros ir' Hir'. apply Hout. by right.
  - intros Heq. pose proof (Hout ir ltac:(left)). lia.
Qed.

(** An invocation moves on, sending [rs]. *)
Lemma coherent_advance w id' c' st rs (a' : State) :
  coherent w → calls w !! id' = Some c' →
  protocol (mkCall (call_stock c') (call_socket c') st) (sentBy id' w ++ rs) →
  coherent (mkWorld a' (setStage id' c' st (calls w))
                    (outbox w ++ send id' rs)).
Proof.
  intros [Hp Hout] Hc' Hnew. pose proof (lookup_lt_Some _ _ _ Hc') as Hlt.
  split.
  - intros id c Hc. simpl in Hc. rewrite sentBy_send, sentBy_outbox.
    unfold setStage in Hc.
    destruct (decide (id' = id)) as [->|Hne].
    + rewrite list_lookup_insert_eq in Hc by done. by injection Hc as <-.
    + rewrite list_lookup_insert_ne in Hc by done. rewrite app_nil_r.
      by apply Hp.
  - simpl. unfold setStage. rewrite length_insert. intros ir Hir.
    apply elem_of_app in Hir as [Hir|Hir]; [by apply Hout|].
    unfold send in Hir. apply list_elem_of_fmap in Hir as (r & -> & _). done.
Qed.

Lemma coherent_same_requests w (a' : State) :
  coherent w → coherent (mkWorld a' (calls w) (outbox w)).
Proof.
  intros [Hp Hout]. split; [|done].
  intros id c Hc. rewrite sentBy_outbox. by apply Hp.
Qed.

Lemma step_coherent w e : coherent w → coherent (step w e).
Proof.
  intros Hw. pose proof Hw as [Hp Hout].
  destruct e as [|d| |stock|id r|id r|id r]; cbn [step];
    try by apply coherent_same_requests.
  - split.
    + intros id c Hc. simpl in Hc. rewrite sentBy_send, sentBy_outbox.
      destruct (decide (length (calls w) = id)) as [<-|Hne].
      * rewrite lookup_snoc_length in Hc. injection Hc as <-.
        by rewrite (sentBy_fresh w (length (calls w))).
      * rewrite app_nil_r. apply Hp.
        pose proof (lookup_lt_Some _ _ _ Hc) as Hlt.
        rewrite length_app in Hlt. simpl in Hlt.
        by rewrite lookup_app_l in Hc by lia.
    + simpl. rewrite length_app. simpl. intros ir Hir.
      apply elem_of_app in Hir as [Hir|Hir].
      * apply Hout in Hir. lia.
      * apply list_elem_of_singleton in Hir as ->. simpl. lia.
  - destruct (calls w !! id) as [c|] eqn:Hc; [|done].
    pose proof (Hp id c Hc) as Hpc. unfold protocol in Hpc.
    destruct (call_stage c) as [[]|] eqn:Hst; try done.
    destruct r as [historyData|message].
    + apply coherent_advance; [done..|]. unfold protocol. simpl.
      by rewrite Hpc.
    + rewrite <- (app_nil_r (outbox w)).
      apply (coherent_advance w id c None []); [done..|].
      unfold protocol. simpl. rewrite app_nil_r. by left.
  - destruct (calls w !! id) as [c|] eqn:Hc; [|done].
    pose proof (Hp id c Hc) as Hpc. unfold protocol in Hpc.
    destruct (call_stage c) as [[]|] eqn:Hst; try done.
    destruct r as [infoData|message].
    + apply coherent_advance; [done..|]. unfold protocol. simpl.
      rewrite Hpc. by rewrite <- app_assoc.
    + rewrite <- (app_nil_r (outbox w)).
      apply (coherent_advance w id c None []); [done..|].
      unfold protocol. simpl. rewrite app_nil_r. right. by left.
  - destruct (calls w !! id) as [c|] eqn:Hc; [|done].
    pose proof (Hp id c Hc) as Hpc. unfold protocol in Hpc.
    destruct (call_stage c) as [[]|] eqn:Hst; try done.
    rewrite <- (app_nil_r (outbox w)).
    apply (coherent_advance w id c None []); [done..|].
    unfold protocol. simpl. rewrite app_nil_r. right. by right.
Qed.

Lemma reachable_coherent es : coherent (run (@initialWorld Hist Info Pred E) es).
Proof.
  induction es as [|e es IH] using rev_ind.
  - split; [intros id c Hc; simpl in Hc; by rewrite lookup_nil in Hc|].
    intros ir Hir. simpl in Hir. by apply elem_of_nil in Hir.
  - rewrite run_app. by apply step_coherent.
Qed.

(** X1. In every state the component can reach, what an invocation of
    [handleStockSelect] has sent is fixed by its progress: the history
    request (period 1y, interval 1d) first; the info request only after the
    history resolved; the subscription and exactly one seven-day forecast
    request per model only after the info resolved; nothing twice, and
    nothing for another symbol. *)
Theorem requests_follow_progress es id c :
  calls (run (@initialWorld Hist Info Pred E) es) !! id = Some c →
  protocol c (sentBy id (run initialWorld es)).
Proof. intros Hc. by apply (reachable_coherent es). Qed.

(** ** The loading flag *)

Lemma stock_update_frame d s :
  socket (stock_update d s) = socket s ∧
  selectedStock (stock_update d s) = selectedStock s ∧
  stockData (stock_update d s) = stockData s ∧
  stockInfo (stock_update d s) = stockInfo s ∧
  loading (stock_update d s) = loading s ∧
  errorMsg (stock_update d s) = errorMsg s.
Proof.
  unfold stock_update. destruct (socket s) eqn:Hs; [|done].
  destruct (selectedStock s) eqn:Hsel; [|done]. case_decide; [|done].
  by destruct (Feed.predictions d).
Qed.

Lemma afterPredictions_loading rs s : loading (afterPredictions rs s) = false.
Proof. unfold afterPredictions. by repeat case_match. Qed.

Lemma step_loading_pending w e :
  (loading (app w) = true →
   ∃ id c, calls w !! id = Some c ∧ is_Some (call_stage c)) →
  loading (app (step w e)) = true →
  ∃ id c, calls (step w e) !! id = Some c ∧ is_Some (call_stage c).
Proof.
  intros Hw.
  assert (Hmove : ∀ id c st (cs := calls w),
            calls w !! id = Some c →
            ∃ id' c', setStage id c (Some st) cs !! id' = Some c' ∧
                      is_Some (call_stage c')).
  { intros id c st cs Hc. eexists id, _. unfold setStage.
    rewrite list_lookup_insert_eq by by eapply lookup_lt_Some.
    split; [done|]. simpl. eauto. }
  destruct e as [|d| |stock|id r|id r|id r]; cbn [step]; simpl.
  - done.
  - destruct (stock_update_frame d (app w)) as (_ & _ & _ & _ & -> & _). done.
  - unfold connect_error. by destruct (socket _).
  - intros _. eexists (length (calls w)), _.
    rewrite lookup_snoc_length. split; [done|]. simpl. eauto.
  - destruct (calls w !! id) as [c|] eqn:Hc; [|done].
    destruct (call_stage c) as [[]|], r; simpl; try done.
    intros _. by eapply Hmove.
  - destruct (calls w !! id) as [c|] eqn:Hc; [|done].
    destruct (call_stage c) as [[]|], r; simpl; try done.
    intros _. by eapply Hmove.
  - destruct (calls w !! id) as [c|] eqn:Hc; [|done].
    destruct (call_stage c) as [[]|]; simpl; try done.
    by rewrite afterPredictions_loading.
Qed.

(** X2. Whenever the loading indicator is on, some invocation of
    [handleStockSelect] is still waiting for a reply: once every request
    has settled the indicator is off.  (The converse does not hold: any
    invocation that ends switches the indicator off.) *)
Theorem loading_has_pending_invocation es :
  let w := run (@initialWorld Hist Info Pred E) es in
  loading (app w) = true →
  ∃ id c, calls w !! id = Some c ∧ is_Some (call_stage c).
Proof.
  induction es as [|e es IH] using rev_ind; [done|].
  simpl. rewrite run_app. by apply step_loading_pending.
Qed.

(** ** A selection whose history or info request fails *)

Lemma run_cat w es1 es2 : run w (es1 ++ es2) = run (run w es1) es2.
Proof. unfold run. by rewrite foldl_app. Qed.

(** An event that is not a completion for invocation [id] leaves that
    invocation where it is. *)
Lemma step_other_call w e id c :
  addressedTo id e = false →
  calls w !! id = Some c → calls (step w e) !! id = Some c.
Proof.
  intros He Hc.
  destruct e as [|d| |stock|i r|i r|i r]; cbn [step calls]; try done.
  - by apply lookup_app_l_Some.
  - simpl in He. apply bool_decide_eq_false_1 in He.
    destruct (calls w !! i) as [c'|] eqn:Hc'; [|done].
    destruct (call_stage c') as [[]|], r; try done; cbn [calls];
      unfold setStage; by rewrite list_lookup_insert_ne.
  - simpl in He. apply bool_decide_eq_false_1 in He.
    destruct (calls w !! i) as [c'|] eqn:Hc'; [|done].
    destruct (call_stage c') as [[]|], r; try done; cbn [calls];
      unfold setStage; by rewrite list_lookup_insert_ne.
  - simpl in He. apply bool_decide_eq_false_1 in He.
    destruct (calls w !! i) as [c'|] eqn:Hc'; [|done].
    destruct (call_stage c') as [[]|]; try done; cbn [calls];
      unfold setStage; by rewrite list_lookup_insert_ne.
Qed.

Lemma run_other_calls es w id c :
  forallb (λ e, negb (addressedTo id e)) es = true →
  calls w !! id = Some c → calls (run w es) !! id = Some c.
Proof.
  revert w. induction es as [|e es IH]; intros w Hes Hc; [done|].
  simpl in Hes. apply andb_prop in Hes as [He Hes].
  apply negb_true_iff in He. apply (IH (step w e)); [done|].
  by apply step_other_call.
Qed.

(** The socket events and the ticks for another symbol leave the selection
    and its data alone. *)
Lemma step_foreign w e stock :
  foreign stock e = true → selectedStock (app w) = Some stock →
  selectedStock (app (step w e)) = Some stock ∧
  stockData (app (step w e)) = stockData (app w) ∧
  stockInfo (app (step w e)) = stockInfo (app w) ∧
  predictionsMap (app (step w e)) = predictionsMap (app w) ∧
  realTimeData (app (step w e)) = realTimeData (app w).
Proof.
  intros He Hsel. destruct e as [|d| |?|? ?|? ?|? ?]; try done; simpl.
  - simpl in He. apply negb_true_iff, bool_decide_eq_false_1 in He.
    rewrite stock_update_foreign; [done|].
    intros sel Hsel'. rewrite Hsel in Hsel'. by injection Hsel' as <-.
  - unfold connect_error. by destruct (socket _).
Qed.

Lemma run_foreign es w stock :
  forallb (foreign stock) es = true → selectedStock (app w) = Some stock →
  selectedStock (app (run w es)) = Some stock ∧
  stockData (app (run w es)) = stockData (app w) ∧
  stockInfo (app (run w es)) = stockInfo (app w) ∧
  predictionsMap (app (run w es)) = predictionsMap (app w) ∧
  realTimeData (app (run w es)) = realTimeData (app w).
Proof.
  revert w. induction es as [|e es IH]; intros w Hes Hsel; [done|].
  simpl in Hes. apply andb_prop in Hes as [He Hes].
  destruct (step_foreign w e stock He Hsel) as (Hs & Hd & Hi & Hp & Hb).
  rewrite <- Hd, <- Hi, <- Hp, <- Hb. by apply (IH (step w e)).
Qed.

(** C10 (as amended). A selection whose history request fails ends with
    the fetch error and the loading flag cleared, whatever ticks and
    completions of other invocations were handled in between; the history
    request is the only request it has sent (no stock-info request, no
    subscription, no forecast request) and it never sends another.  The
    failure itself writes nothing but the error and the loading flag: the
    historical data, the stock info, the prediction map and the live buffer
    are as they were when the failure arrived, and that is the freshly
    reset, empty state whenever nothing but socket events and ticks for
    other symbols was handled since the selection. *)
Theorem failed_history_ends_selection es0 stock es message :
  let w := run (@initialWorld Hist Info Pred E) es0 in
  let id := length (calls w) in
  let w1 := run w (Select stock :: es) in
  let w' := step w1 (HistorySettled id (Rejected message)) in
  forallb (λ e, negb (addressedTo id e)) es = true →
  (errorMsg (app w') = Some fetchFailedMessage ∧ loading (app w') = false) ∧
  sentBy id w' = [GetStockHistory (stock_symbol stock) "1y" "1d"] ∧
  ((∀ r, step w' (HistorySettled id r) = w') ∧
   (∀ r, step w' (InfoSettled id r) = w') ∧
   (∀ r, step w' (PredictionsSettled id r) = w')) ∧
  (stockData (app w') = stockData (app w1) ∧
   stockInfo (app w') = stockInfo (app w1) ∧
   predictionsMap (app w') = predictionsMap (app w1) ∧
   realTimeData (app w') = realTimeData (app w1)) ∧
  (forallb (foreign stock) es = true →
   stockData (app w') = None ∧ stockInfo (app w') = None ∧
   predictionsMap (app w') = ∅ ∧ realTimeData (app w') = []).
Proof.
  intros w id w1 w' Hes.
  set (c := mkCall stock (socket (app w)) (Some AwaitHistory)).
  assert (Hc : calls w1 !! id = Some c).
  { subst w1. change (run w (Select stock :: es))
      with (run (step w (Select stock)) es).
    apply run_other_calls; [done|]. apply lookup_snoc_length. }
  assert (Hsent : sentBy id w1 = historyRequest c).
  { assert (Hco : coherent w1).
    { subst w1 w. rewrite <- run_cat. apply reachable_coherent. }
    by apply Hco in Hc. }
  assert (Hw' : w' = mkWorld (catchFinally (app w1))
                             (setStage id c None (calls w1)) (outbox w1)).
  { subst w'. cbn [step]. by rewrite Hc. }
  assert (Hc' : calls w' !! id = Some (mkCall stock (socket (app w)) None)).
  { rewrite Hw'. cbn [calls]. unfold setStage.
    rewrite list_lookup_insert_eq by by eapply lookup_lt_Some. done. }
  split_and!.
  - by rewrite Hw'.
  - by rewrite Hw'.
  - rewrite Hw', sentBy_outbox. by rewrite Hsent.
  - intros r. by apply (returned_call_inert w' id _ _ Hc').
  - intros r. by apply (returned_call_inert w' id _ _ Hc').
  - intros r. by apply (returned_call_inert w' id _ _ Hc').
  - by rewrite Hw'.
  - by rewrite Hw'.
  - by rewrite Hw'.
  - by rewrite Hw'.
  - intros Hforeign.
    destruct (run_foreign es (step w (Select stock)) stock Hforeign eq_refl)
      as (_ & Hd & Hi & Hp & Hb).
    rewrite Hw'. cbn [app catchFinally]. simpl.
    change (run (step w (Select stock)) es) with w1 in Hd, Hi, Hp, Hb.
    by rewrite Hd, Hi, Hp, Hb.
Qed.

(** X3. A selection whose history request succeeds and whose stock-info
    request then fails ends with the fetch error and the loading flag
    cleared, whatever ticks and completions of other invocations were
    handled in between; it has sent its history and info requests and
    nothing else (no subscription, no forecast request), and never sends
    another.  The failure itself writes nothing but the error and the
    loading flag; whenever nothing but socket events and ticks for other
    symbols was handled since the selection, the historical data it loaded
    is kept and the stock info, the prediction map and the live buffer are
    empty. *)
Theorem info_failure_keeps_history es0 stock es1 historyData es2 message :
  let w := run (@initialWorld Hist Info Pred E) es0 in
  let id := length (calls w) in
  let w1 := run w (Select stock :: es1 ++
                   HistorySettled id (Resolved historyData) :: es2) in
  let w' := step w1 (InfoSettled id (Rejected message)) in
  forallb (λ e, negb (addressedTo id e)) es1 = true →
  forallb (λ e, negb (addressedTo id e)) es2 = true →
  (errorMsg (app w') = Some fetchFailedMessage ∧ loading (app w') = false) ∧
  sentBy id w' = [GetStockHistory (stock_symbol stock) "1y" "1d";
                  GetStockInfo (stock_symbol stock)] ∧
  ((∀ r, step w' (HistorySettled id r) = w') ∧
   (∀ r, step w' (InfoSettled id r) = w') ∧
   (∀ r, step w' (PredictionsSettled id r) = w')) ∧
  (stockData (app w') = stockData (app w1) ∧
   stockInfo (app w') = stockInfo (app w1) ∧
   predictionsMap (app w') = predictionsMap (app w1) ∧
   realTimeData (app w') = realTimeData (app w1)) ∧
  (forallb (foreign stock) es1 = true → forallb (foreign stock) es2 = true →
   stockData (app w') = historyData ∧ stockInfo (app w') = None ∧
   predictionsMap (app w') = ∅ ∧ realTimeData (app w') = []).
Proof.
  intros w id w1 w' Hes1 Hes2.
  set (c := mkCall stock (socket (app w)) (Some AwaitHistory)).
  set (c2 := mkCall stock (socket (app w)) (Some AwaitInfo)).
  set (wa := run (step w (Select stock)) es1).
  set (wb := step wa (HistorySettled id (Resolved historyData))).
  assert (Hw1 : w1 = run wb es2).
  { subst w1 wb wa. unfold run. simpl. by rewrite foldl_app. }
  assert (Hca : calls wa !! id = Some c).
  { apply run_other_calls; [done|]. apply lookup_snoc_length. }
  assert (Hwb : wb = mkWorld (setStockData historyData (app wa))
                      (setStage id c (Some AwaitInfo) (calls wa))
                      (outbox wa ++ send id [GetStockInfo (stock_symbol stock)])).
  { subst wb. cbn [step]. by rewrite Hca. }
  assert (Hc : calls w1 !! id = Some c2).
  { rewrite Hw1. apply run_other_calls; [done|]. rewrite Hwb. cbn [calls].
    unfold setStage.
    rewrite list_lookup_insert_eq by by eapply lookup_lt_Some. done. }
  assert (Hsent : sentBy id w1 = historyRequest c2 ++ infoRequest c2).
  { assert (Hco : coherent w1).
    { subst w1 w. rewrite <- run_cat. apply reachable_coherent. }
    by apply Hco in Hc. }
  assert (Hw' : w' = mkWorld (catchFinally (app w1))
                             (setStage id c2 None (calls w1)) (outbox w1)).
  { subst w'. cbn [step]. by rewrite Hc. }
  assert (Hc' : calls w' !! id = Some (mkCall stock (socket (app w)) None)).
  { rewrite Hw'. cbn [calls]. unfold setStage.
    rewrite list_lookup_insert_eq by by eapply lookup_lt_Some. done. }
  split_and!.
  - by rewrite Hw'.
  - by rewrite Hw'.
  - rewrite Hw', sentBy_outbox. by rewrite Hsent.
  - intros r. by apply (returned_call_inert w' id _ _ Hc').
  - intros r. by apply (returned_call_inert w' id _ _ Hc').
  - intros r. by apply (returned_call_inert w' id _ _ Hc').
  - by rewrite Hw'.
  - by rewrite Hw'.
  - by rewrite Hw'.
  - by rewrite Hw'.
  - intros Hf1 Hf2.
    destruct (run_foreign es1 (step w (Select stock)) stock Hf1 eq_refl)
      as (Hs & _ & Hi & Hp & Hb). fold wa in Hs, Hi, Hp, Hb.
    assert (Hsb : selectedStock (app wb) = Some stock) by by rewrite Hwb.
    destruct (run_foreign es2 wb stock Hf2 Hsb) as (_ & Hd2 & Hi2 & Hp2 & Hb2).
    rewrite <- Hw1 in Hd2, Hi2, Hp2, Hb2.
    rewrite Hw'. cbn [app]. simpl.
    rewrite Hd2, Hi2, Hp2, Hb2, Hwb. simpl. by rewrite Hi, Hp, Hb.
Qed.

(** ** Forecasts carried by ticks *)

Lemma stock_update_map d s :
  predictionsMap (stock_update d s) =
    if accepts s d
    then mergePredictions (default ∅ (Feed.predictions d)) (predictionsMap s)
    else predictionsMap s.
Proof.
  unfold stock_update, accepts. destruct (socket s); [|done]. simpl.
  destruct (selectedStock s) as [sel|]; [|done].
  case_decide.
  - rewrite bool_decide_eq_true_2 by done.
    destruct (Feed.predictions d); simpl; [done|].
    unfold mergePredictions. by rewrite (left_id_L ∅ (∪)).
  - by rewrite bool_decide_eq_false_2.
Qed.

Lemma accepts_stock_update d d' s :
  accepts (stock_update d' s) d = accepts s d.
Proof.
  unfold accepts.
  by destruct (stock_update_frame d' s) as (-> & -> & _).
Qed.

(** X4. A tick delivered twice merges its forecasts once: after the second
    delivery the prediction map is what it was after the first. *)
Theorem redelivered_forecasts_merge_once s d :
  predictionsMap (stock_update d (stock_update d s))
    = predictionsMap (stock_update d s).
Proof.
  rewrite (stock_update_map d (stock_update d s)), accepts_stock_update.
  rewrite stock_update_map. destruct (accepts s d); [|done].
  apply map_eq. intros k. rewrite !mergePredictions_lookup.
  by destruct (default ∅ (Feed.predictions d) !! k).
Qed.

(** X5. Two ticks whose forecasts are for different models can arrive in
    either order: the prediction map is the same. *)
Theorem disjoint_forecasts_commute s d1 d2 :
  (∀ p1 p2 k, Feed.predictions d1 = Some p1 → Feed.predictions d2 = Some p2 →
              p1 !! k = None ∨ p2 !! k = None) →
  predictionsMap (stock_update d2 (stock_update d1 s))
    = predictionsMap (stock_update d1 (stock_update d2 s)).
Proof.
  intros Hdisj.
  rewrite (stock_update_map d2 (stock_update d1 s)), accepts_stock_update.
  rewrite (stock_update_map d1 (stock_update d2 s)), accepts_stock_update.
  rewrite !stock_update_map.
  destruct (accepts s d1), (accepts s d2); try done.
  apply map_eq. intros k. rewrite !mergePredictions_lookup.
  destruct (Feed.predictions d1) as [p1|] eqn:H1;
    destruct (Feed.predictions d2) as [p2|] eqn:H2; simpl;
    rewrite ?lookup_empty; try done.
  destruct (Hdisj p1 p2 k eq_refl eq_refl) as [-> | ->];
    by destruct (_ !! k).
Qed.

(** ** The newest tick *)

(** X6. A tick the listener accepts is the last entry of the live buffer,
    also when the buffer was full and the oldest entry had to go; it is the
    tick the latest-price panel of the chart shows. *)
Theorem accepted_tick_is_latest s d hd pm :
  accepts s d = true →
  last (realTimeData (stock_update d s)) = Some d ∧
  StockChart.latestTick
    {| StockChart.historicalData := hd;
       StockChart.realTimeData := Some (realTimeData (stock_update d s));
       StockChart.predictions := pm |} = Some d.
Proof.
  intros Hacc. unfold accepts in Hacc.
  apply andb_prop in Hacc as [Hs Hsel].
  destruct (selectedStock s) as [sel|] eqn:Hsel'; [|done].
  apply bool_decide_eq_true_1 in Hsel.
  destruct (stock_update_accept d s sel Hs Hsel' Hsel) as (Hbuf & _ & _).
  rewrite Hbuf, appendTick_keep. unfold keep.
  set (buf := realTimeData s ++ [d]).
  assert (Hlast : last (drop (length buf - 100) buf) = Some d).
  { subst buf. rewrite length_app. simpl.
    rewrite drop_app_le by lia. apply last_snoc. }
  split; [done|].
  unfold StockChart.latestTick. simpl.
  rewrite last_lookup in Hlast.
  destruct (drop (length buf - 100) buf) as [|x l] eqn:Hd; [done|].
  replace (length (x :: l) - 1) with (pred (length (x :: l))) by lia.
  done.
Qed.

End SessionFacts.

End SessionFacts.

(** * Further properties of the chart *)

Module ChartOptionFacts.

Import JsArrayFacts.
Import StockChart ChartFacts.
Import Feed (Tick).

Section ChartOptionFacts.

Context {E Pred : Type}.

Abbreviation heap := (list (list E)).
Abbreviation Props := (Props E Pred).

Implicit Types (h : heap) (p : Props) (s : ChartState).
Implicit Types (a b ds cs : list E).

(** ** The time-range filter on a long enough series *)

Lemma lookback_window {A : Type} (range : string) (m : nat) (a : list A) :
  lookback range m a =
    match window range with
    | Some n => JsArray.slice (Z.of_nat m - Z.of_nat n) a
    | None => a
    end.
Proof.
  unfold lookback, window.
  destruct (String.eqb range "1m"); [done|].
  destruct (String.eqb range "3m"); [done|].
  by destruct (String.eqb range "6m").
Qed.

(** X7. On a series with at least as many entries as the time range asks
    for (30, 90 or 180), the labels are exactly the last that many
    historical dates followed by the live-tick timestamps; with ['1y'], or
    any other range, they are all historical dates followed by the
    timestamps. *)
Theorem long_series_shows_trailing_window p s h hd ds cs :
  historicalData p = Some hd →
  h !! dates hd = Some ds → h !! close hd = Some cs →
  (∀ n, window (timeRange s) = Some n → n ≤ length ds) →
  ∃ cd h1,
    prepareChartData p s h = Some (Some cd, h1) ∧
    h1 !! labels cd =
      Some (match window (timeRange s) with
            | Some n => drop (length ds - n) ds
            | None => ds
            end ++ (Feed.timestamp <$> liveTicks p)) ∧
    (∀ n, window (timeRange s) = Some n →
          length (drop (length ds - n) ds) = n).
Proof.
  intros Hhd Hds Hcs Hlong.
  destruct (prepareChartData_run p s h hd ds cs Hhd Hds Hcs)
    as (cd & fresh & Heq & _ & Hlabels & _).
  exists cd, (h ++ fresh). split_and!; [done| |].
  - rewrite Hlabels, lookback_window.
    destruct (window (timeRange s)) as [n|]; [|done].
    by destruct (slice_trailing_long n ds (Hlong n eq_refl)) as [-> _].
  - intros n Hn. rewrite length_drop. specialize (Hlong n Hn). lia.
Qed.

(** ** Dates and prices stay aligned *)

Lemma slice_length {A B : Type} (start : Z) (a : list A) (b : list B) :
  length a = length b →
  length (JsArray.slice start a) = length (JsArray.slice start b).
Proof.
  intros Hlen. unfold JsArray.slice. rewrite !length_drop. by rewrite Hlen.
Qed.

(** X8. When the historical dates and closing prices have the same length,
    so have the labels and the primary price series, for every time range
    and every live buffer: point [i] of the line is drawn at label [i]. *)
Theorem labels_and_prices_aligned p s h hd ds cs :
  historicalData p = Some hd →
  h !! dates hd = Some ds → h !! close hd = Some cs →
  length ds = length cs →
  ∃ cd h1 ls ps,
    prepareChartData p s h = Some (Some cd, h1) ∧
    h1 !! labels cd = Some ls ∧ primaryPrices h1 cd = Some ps ∧
    length ls = length ps.
Proof.
  intros Hhd Hds Hcs Hlen.
  destruct (prepareChartData_run p s h hd ds cs Hhd Hds Hcs)
    as (cd & fresh & Heq & _ & Hlabels & (fp & _ & Hfp & Hdatasets) & _).
  eexists cd, (h ++ fresh), _, _. split_and!; [done|done| |].
  - unfold primaryPrices. by rewrite Hdatasets.
  - rewrite !length_app, !length_fmap. f_equal.
    rewrite !lookback_window.
    destruct (window (timeRange s)); [by apply slice_length|done].
Qed.

(** ** The datasets *)

(** X9. The first dataset is always the historical line, drawn from an
    array the invocation created.  When predictions are shown and the
    selected model has a forecast, three more datasets follow on the axis
    [x2], and they share the arrays of the prediction map (predicted
    prices, upper bounds, lower bounds, in this order); otherwise there is
    no other dataset.  The forecast dates are returned for the selected
    model whether predictions are shown or hidden. *)
Theorem datasets_of_the_chart p s h hd ds cs :
  historicalData p = Some hd →
  h !! dates hd = Some ds → h !! close hd = Some cs →
  ∃ cd h1 d0 rest,
    prepareChartData p s h = Some (Some cd, h1) ∧
    datasets cd = d0 :: rest ∧
    (label d0 = "Historical Price" ∧ xAxisID d0 = None ∧
     length h ≤ dataset_data d0) ∧
    match (if showPredictions s then selectedPrediction p s else None) with
    | Some pd =>
        (λ d, (dataset_data d, xAxisID d)) <$> rest =
          [(predicted_prices pd, Some "x2");
           (upper_bounds pd, Some "x2");
           (lower_bounds pd, Some "x2")]
    | None => rest = []
    end ∧
    match selectedPrediction p s with
    | Some pd => predictionDates cd = prediction_dates pd
    | None => h1 !! predictionDates cd = Some []
    end.
Proof.
  intros Hhd Hds Hcs.
  destruct (prepareChartData_run p s h hd ds cs Hhd Hds Hcs)
    as (cd & fresh & Heq & _ & _ & (fp & Hfresh & _ & Hdatasets) & Hpd).
  eexists cd, (h ++ fresh), _, _. split_and!; [done|done|done..| |done].
  by destruct (if showPredictions s then selectedPrediction p s else None).
Qed.

(** ** The tooltip title *)

(** X10. The title of a tooltip on the historical line is the label of
    the hovered point: a historical date inside the slice, the timestamp of
    a live tick after it.  On a forecast dataset it is the forecast date of
    the selected model at that index, and nothing ([undefined]) beyond the
    forecast's length. *)
Theorem tooltip_title p s h hd ds cs item others :
  historicalData p = Some hd →
  h !! dates hd = Some ds → h !! close hd = Some cs →
  ∃ cd h1,
    prepareChartData p s h = Some (Some cd, h1) ∧
    (datasetIndex item = 0 →
     title cd (item :: others) h1 =
       Some ((lookback (timeRange s) (length ds) ds
                ++ (Feed.timestamp <$> liveTicks p)) !! dataIndex item, h1)) ∧
    (∀ pd fds, 0 < datasetIndex item →
       selectedPrediction p s = Some pd →
       h !! prediction_dates pd = Some fds →
       title cd (item :: others) h1 = Some (fds !! dataIndex item, h1)).
Proof.
  intros Hhd Hds Hcs.
  destruct (prepareChartData_run p s h hd ds cs Hhd Hds Hcs)
    as (cd & fresh & Heq & _ & Hlabels & _ & Hpd).
  exists cd, (h ++ fresh). split_and!; [done| |].
  - intros Hzero. unfold title. rewrite Hzero. simpl.
    unfold bind, read, ret. by rewrite Hlabels.
  - intros pd fds Hpos Hsel Hfds. unfold title.
    destruct (Nat.ltb_spec 0 (datasetIndex item)) as [_|?]; [|lia].
    rewrite Hsel in Hpd. rewrite Hpd.
    unfold bind, read, ret.
    by rewrite (lookup_app_l_Some _ _ _ _ Hfds).
Qed.

(** ** The legend *)

Lemma string_length_app (x y : string) :
  String.length (x +:+ y) = String.length x + String.length y.
Proof. induction x as [|c x IH]; simpl; [done|by rewrite IH]. Qed.

Lemma prediction_label_not_lower_bound (x : string) :
  legendFilter (x +:+ " Prediction") = true.
Proof.
  unfold legendFilter. apply negb_true_iff, String.eqb_neq. intros Heq.
  pose proof (f_equal String.length Heq) as Hlen.
  rewrite string_length_app in Hlen. simpl in Hlen.
  destruct x as [|c x]; [done|]. simpl in Hlen. lia.
Qed.

(** X11. Of the datasets of the chart the legend lists all but the lower
    bound of the confidence band: the historical line alone, or the
    historical line, the prediction of the selected model and the
    confidence interval, whatever ASCII name the model has. *)
Theorem legend_hides_only_lower_bound p s h hd ds cs :
  JsArray.isAscii (selectedModel s) = true →
  historicalData p = Some hd →
  h !! dates hd = Some ds → h !! close hd = Some cs →
  ∃ cd h1,
    prepareChartData p s h = Some (Some cd, h1) ∧
    legendTexts cd =
      "Historical Price" ::
      match (if showPredictions s then selectedPrediction p s else None) with
      | Some _ =>
          [JsArray.toUpperCase (selectedModel s) +:+ " Prediction";
           "Confidence Interval"]
      | None => []
      end.
Proof.
  intros _ Hhd Hds Hcs.
  destruct (prepareChartData_run p s h hd ds cs Hhd Hds Hcs)
    as (cd & fresh & Heq & _ & _ & (fp & _ & _ & Hdatasets) & _).
  exists cd, (h ++ fresh). split; [done|].
  unfold legendTexts. rewrite Hdatasets. simpl.
  rewrite filter_cons_True by done. f_equal.
  destruct (if showPredictions s then selectedPrediction p s else None);
    [|done].
  simpl. rewrite filter_cons_True by apply prediction_label_not_lower_bound.
  rewrite filter_cons_True by done. by rewrite filter_cons_False.
Qed.

End ChartOptionFacts.

End ChartOptionFacts.

(** * Properties of the model comparison *)

Module ComparisonFacts.

Import ModelComparison.

Section ComparisonFacts.

Context {R : Type}.
Variable num : Z → R.
Variable undef : R.
Variables sub div mul add : R → R → R.
Variable gt : R → R → bool.

Abbreviation Predictions := (option (gmap string (option (@ModelPredictions R)))).
Abbreviation metrics := (ModelComparison.metrics num undef sub div mul add).
Abbreviation waiting := (ModelComparison.waiting num undef sub div mul add).
Abbreviation directionOf := (ModelComparison.directionOf num undef sub div mul gt).
Abbreviation directionData :=
  (ModelComparison.directionData num undef sub div mul gt).

Implicit Types (predictions : Predictions).
Implicit Types (m : gmap string (option (@ModelPredictions R))).

Lemma calculateMetrics_dom m :
  dom (calculateMetrics num undef sub div mul add (Some m)) = dom m.
Proof.
  unfold calculateMetrics. simpl. apply dom_imap_L. intros i.
  rewrite elem_of_dom. split.
  - intros [x Hx]. exists x. split; [done|]. eauto.
  - intros (x & Hx & _). eauto.
Qed.

Lemma metrics_dom predictions :
  dom (metrics predictions) = dom (default ∅ predictions).
Proof.
  destruct predictions as [m|]; simpl; [|done].
  destruct (Nat.ltb_spec 0 (size m)) as [Hpos|Hzero].
  - apply calculateMetrics_dom.
  - assert (m = ∅) as -> by (apply map_size_empty_iff; lia). done.
Qed.

(** X12. The metrics have an entry for every model of [predictions],
    complete or not, and for nothing else.  So the component shows its
    charts as soon as [predictions] has a key, and the message "Waiting for
    valid prediction data" exactly when [predictions] is [null] or has no
    key; inside [App], which renders the comparison only with more than
    one model, the message never appears. *)
Theorem comparison_waits_only_without_predictions predictions :
  dom (metrics predictions) = dom (default ∅ predictions) ∧
  (waiting predictions = true ↔ default ∅ predictions = ∅) ∧
  (∀ (Hist Info E : Type)
     (s : App.State Hist Info (option (@ModelPredictions R)) E),
     predictions = Some (App.predictionsMap s) →
     App.showsComparison s = true → waiting predictions = false).
Proof.
  pose proof (metrics_dom predictions) as Hdom.
  assert (Hsize : size (metrics predictions) = size (default ∅ predictions)).
  { by rewrite <- !size_dom, Hdom. }
  split_and!; [done| |].
  - unfold ModelComparison.waiting. rewrite Hsize, Nat.eqb_eq.
    apply map_size_empty_iff.
  - intros Hist Info E s -> Hshow.
    unfold ModelComparison.waiting. rewrite Hsize. simpl.
    unfold App.showsComparison in Hshow.
    apply andb_prop in Hshow as [_ Hmany]. apply Nat.ltb_lt in Hmany.
    apply Nat.eqb_neq. lia.
Qed.

(** ** The prediction directions *)

Lemma directionOf_unknown current name mp :
  direction (directionOf current name mp) = unknown ↔
  (∀ r pp, mp = Some r → predicted_prices r = Some pp → pp = []).
Proof.
  unfold ModelComparison.directionOf.
  destruct mp as [[[pp|] ub lb]|]; simpl.
  - destruct pp as [|x pp]; simpl.
    + split; [|done]. by intros _ r pp [= <-] [= <-].
    + split; [by destruct (gt _ _)|].
      intros H. by specialize (H _ _ eq_refl eq_refl).
  - split; [|done]. by intros _ r pp [= <-] [=].
  - split; [|done]. by intros _ r pp [=].
Qed.

(** X13. With closing prices to compare with, the direction panel has one
    item per model of [predictions], named after it; the direction of a
    model is [unknown] exactly when it has no predicted prices (the entry
    or the array is missing, or the array is empty), and then its last
    predicted price is given as the current price.  Without closing
    prices (missing or empty) the panel has no item at all. *)
Theorem direction_items m cl :
  cl ≠ [] →
  let current := at_index undef cl (length cl - 1) in
  let items := directionData (Some m) (Some {| close := Some cl |}) in
  length items = size m ∧
  (∀ item, item ∈ items ↔
     ∃ name mp, m !! name = Some mp ∧ item = directionOf current name mp) ∧
  (∀ item, item ∈ items →
     (direction item = unknown ↔
      ∀ mp pp, m !! model item = Some (Some mp) →
               predicted_prices mp = Some pp → pp = []) ∧
     (direction item = unknown → lastPredictedPrice item = current)) ∧
  directionData (Some m) (Some {| close := Some [] |}) = [] ∧
  directionData (Some m) (Some {| close := None |}) = [] ∧
  directionData (Some m) None = [].
Proof.
  intros Hcl current items.
  assert (Hitems : items =
            (λ kv, directionOf current kv.1 kv.2) <$> map_to_list m).
  { subst items. unfold ModelComparison.directionData. simpl.
    destruct cl; [done|]. done. }
  assert (Hmem : ∀ item, item ∈ items ↔
            ∃ name mp, m !! name = Some mp ∧
                       item = directionOf current name mp).
  { intros item. rewrite Hitems, list_elem_of_fmap. split.
    - intros ([name mp] & -> & Hin%elem_of_map_to_list). eauto.
    - intros (name & mp & Hm & ->). exists (name, mp).
      split; [done|]. by apply elem_of_map_to_list. }
  assert (Hname : ∀ name mp, model (directionOf current name mp) = name).
  { intros name mp. unfold ModelComparison.directionOf.
    destruct mp as [[[pp|] ub lb]|]; simpl; [|done..].
    by destruct (length pp =? 0). }
  split_and!; [|done| |done..].
  - by rewrite Hitems, length_fmap, length_map_to_list.
  - intros item (name & mp & Hm & ->)%Hmem. rewrite Hname. split.
    + rewrite directionOf_unknown. rewrite Hm. split.
      * intros H mp' pp [= ->]. by apply H.
      * intros H mp' pp ->. by apply H.
    + unfold ModelComparison.directionOf.
      destruct mp as [[[pp|] ub lb]|]; simpl; [|done..].
      destruct (length pp =? 0); simpl; [done|]. by destruct (gt _ _).
Qed.

End ComparisonFacts.

End ComparisonFacts.

(** * Further scenarios *)

Module MoreScenarioFacts.

Import api App StockChart Scenario.
Import SessionFacts ChartOptionFacts ComparisonFacts.
Import Feed (Tick, mkTick).

(** X1, instance: after the switch to [msft] the first invocation has sent
    its history and info requests, the subscription and the three forecast
    requests for [aapl]. *)
Lemma requests_follow_progress_witness :
  sentBy 0 switchedToMsft =
    [GetStockHistory "AAPL" "1y" "1d"; GetStockInfo "AAPL"; TrackStock "AAPL";
     PostPredict "AAPL" "arima" 7; PostPredict "AAPL" "prophet" 7;
     PostPredict "AAPL" "ml" 7].
Proof.
  apply (requests_follow_progress (aaplLoading ++ [Select msft]) 0 firstCall).
  reflexivity.
Defined.

(** X2, instance: right after a selection the indicator is on and the
    invocation waits for the history. *)
Lemma loading_has_pending_invocation_witness :
  ∃ id c, calls aaplSelected !! id = Some c ∧ is_Some (call_stage c).
Proof.
  apply (loading_has_pending_invocation [SocketCreated; Select aapl]).
  reflexivity.
Defined.

(** C10, counterexample. The user selects [aapl] and at once [msft]; the
    history of [aapl] arrives, then the history request of [msft] fails:
    the failed selection of [msft] ends with the fetch error and with the
    historical data of [aapl] in place. *)
Lemma failed_selection_holds_stale_history :
  let w := run initialWorld (historyRace ++ [HistorySettled 1 (Rejected "timeout")]) in
  selectedStock (app w) = Some msft ∧
  call_stock <$> calls w !! 1 = Some msft ∧
  call_stage <$> calls w !! 1 = Some None ∧
  errorMsg (app w) = Some fetchFailedMessage ∧
  stockData (app w) = Some 1.
Proof. by vm_compute. Qed.

(** C10, instance: the history request for [msft] fails after a late tick
    and the late forecasts for [aapl] were handled. *)
Lemma failed_history_ends_selection_witness :
  let w' :=
    step (run (run initialWorld aaplLoading)
              (Select msft ::
               [StockUpdate (tick "AAPL" 1);
                PredictionsSettled 0 (λ _, forecastReply 7)]))
         (HistorySettled 1 (Rejected "timeout")) in
  errorMsg (app w') = Some fetchFailedMessage ∧ loading (app w') = false ∧
  sentBy 1 w' = [GetStockHistory "MSFT" "1y" "1d"].
Proof.
  destruct (failed_history_ends_selection
              aaplLoading msft
              [StockUpdate (tick "AAPL" 1);
               PredictionsSettled 0 (λ _, forecastReply 7)]
              "timeout")
    as ((Herr & Hload) & Hsent & _).
  - reflexivity.
  - split_and!; [exact Herr|exact Hload|exact Hsent].
Defined.

(** X3, instance: a tick for [msft] arrives while [aapl] loads; the history
    of [aapl] resolves and its info request fails. *)
Lemma info_failure_keeps_history_witness :
  let w' :=
    step (run (run (initialWorld : Scenario.World) [SocketCreated])
              (Select aapl ::
               [StockUpdate (tick "MSFT" 1)] ++
               HistorySettled 0 (Resolved (Some 1)) :: []))
         (InfoSettled 0 (Rejected "timeout")) in
  errorMsg (app w') = Some fetchFailedMessage ∧
  sentBy 0 w' = [GetStockHistory "AAPL" "1y" "1d"; GetStockInfo "AAPL"] ∧
  stockData (app w') = Some 1 ∧ predictionsMap (app w') = ∅.
Proof.
  destruct (info_failure_keeps_history (Info := nat)
              [SocketCreated] aapl [StockUpdate (tick "MSFT" 1)] (Some 1) []
              "timeout")
    as ((Herr & _) & Hsent & _ & _ & Hdata).
  - reflexivity.
  - reflexivity.
  - destruct Hdata as (Hd & _ & Hp & _); [reflexivity|reflexivity|].
    split_and!; [exact Herr|exact Hsent|exact Hd|exact Hp].
Defined.

(** X5, instance: the ARIMA and the ML forecast, in both orders. *)
Lemma disjoint_forecasts_commute_witness :
  predictionsMap
    (stock_update tickWithMlForecast
       (stock_update tickWithForecast (app aaplSelected)))
  = predictionsMap
      (stock_update tickWithForecast
         (stock_update tickWithMlForecast (app aaplSelected))).
Proof.
  apply (disjoint_forecasts_commute
           (app aaplSelected) tickWithForecast tickWithMlForecast).
  intros p1 p2 k Hp1 Hp2. simpl in Hp1, Hp2.
  injection Hp1 as <-. injection Hp2 as <-.
  destruct (decide (k = "arima")) as [->|Hne].
  - right. reflexivity.
  - left. apply lookup_singleton_ne. congruence.
Defined.

(** X6, instance: the first tick for the selected instrument. *)
Lemma accepted_tick_is_latest_witness :
  last (App.realTimeData (stock_update (tick "AAPL" 1) (app aaplSelected)))
    = Some (tick "AAPL" 1).
Proof.
  apply (accepted_tick_is_latest (app aaplSelected) (tick "AAPL" 1) None None).
  reflexivity.
Defined.

(** X7, instance: 252 trading days with the one-month range. *)
Lemma long_series_shows_trailing_window_witness :
  ∃ cd h1,
    prepareChartData shortProps oneMonth yearHeap = Some (Some cd, h1) ∧
    h1 !! labels cd = Some ((λ i, Z.of_nat i) <$> seq 223 30).
Proof.
  destruct (long_series_shows_trailing_window
              shortProps oneMonth yearHeap {| dates := 0; close := 1 |}
              ((λ i, Z.of_nat i) <$> seq 1 252)
              ((λ i, Z.of_nat (100 + i)) <$> seq 1 252))
    as (cd & h1 & Hrun & Hlabels & _).
  - reflexivity.
  - reflexivity.
  - reflexivity.
  - intros n Hn. vm_compute in Hn. injection Hn as <-. vm_compute. lia.
  - exists cd, h1. split; [exact Hrun|].
    rewrite Hlabels. vm_compute. reflexivity.
Defined.

(** X8, instance: three days and two live ticks. *)
Lemma labels_and_prices_aligned_witness :
  ∃ cd h1 ls ps,
    prepareChartData redeliveredProps oneMonth chartHeap
      = Some (Some cd, h1) ∧
    h1 !! labels cd = Some ls ∧ primaryPrices h1 cd = Some ps ∧
    length ls = length ps.
Proof.
  apply (labels_and_prices_aligned redeliveredProps oneMonth chartHeap
           {| dates := 0; close := 1 |} [1; 2; 3]%Z [101; 102; 103]%Z);
    reflexivity.
Defined.

(** X9, instance: the chart with the ARIMA forecast shown. *)
Lemma datasets_of_the_chart_witness :
  ∃ cd h1 d0 rest,
    prepareChartData redeliveredProps initialChartState chartHeap
      = Some (Some cd, h1) ∧
    datasets cd = d0 :: rest ∧
    (λ d, (dataset_data d, xAxisID d)) <$> rest =
      [(3, Some "x2"); (5, Some "x2"); (4, Some "x2")] ∧
    predictionDates cd = 2.
Proof.
  destruct (datasets_of_the_chart redeliveredProps initialChartState chartHeap
              {| dates := 0; close := 1 |} [1; 2; 3]%Z [101; 102; 103]%Z)
    as (cd & h1 & d0 & rest & Hrun & Hds & _ & Hrest & Hpd);
    [reflexivity..|].
  exists cd, h1, d0, rest. auto.
Defined.

(** X10, instance: the fourth point of the historical line is the first
    live tick, of day 4. *)
Lemma tooltip_title_witness :
  ∃ cd h1,
    prepareChartData redeliveredProps initialChartState chartHeap
      = Some (Some cd, h1) ∧
    title cd [fourthPoint] h1 = Some (Some 4%Z, h1).
Proof.
  destruct (tooltip_title redeliveredProps initialChartState chartHeap
              {| dates := 0; close := 1 |} [1; 2; 3]%Z [101; 102; 103]%Z
              fourthPoint [])
    as (cd & h1 & Hrun & Htitle & _); [reflexivity..|].
  exists cd, h1. split; [exact Hrun|]. apply Htitle. reflexivity.
Defined.

(** X11, instance: the legend of the chart with the ARIMA forecast. *)
Lemma legend_hides_only_lower_bound_witness :
  ∃ cd h1,
    prepareChartData redeliveredProps initialChartState chartHeap
      = Some (Some cd, h1) ∧
    legendTexts cd =
      ["Historical Price"; "ARIMA Prediction"; "Confidence Interval"].
Proof.
  apply (legend_hides_only_lower_bound
           redeliveredProps initialChartState chartHeap
           {| dates := 0; close := 1 |} [1; 2; 3]%Z [101; 102; 103]%Z);
    reflexivity.
Defined.

(** X13, instance: ARIMA points up from a close of 103, Prophet has no
    predicted price. *)
Lemma direction_items_witness :
  length (ModelComparison.directionData id 0%Z Z.sub Z.div Z.mul Z.gtb
            (Some comparedPredictions)
            (Some {| ModelComparison.close := Some [101; 102; 103]%Z |})) = 2.
Proof.
  apply (direction_items id 0%Z Z.sub Z.div Z.mul Z.gtb
           comparedPredictions [101; 102; 103]%Z).
  discriminate.
Defined.

End MoreScenarioFacts.
